(** * cylindrical-polar.py: a 2D FDTD solver in cylindrical polar coordinates

    A shallow embedding of [iitmsat/cylindrical-polar.py].  The script keeps
    three field arrays [E_z], [H_r], [H_phi] and a set of coefficient arrays,
    all two-dimensional numpy arrays, and runs a leapfrog loop over them:
    update [H_r], update [H_phi], update [E_z], add the source.

    - A numpy 2D array is a list of rows, [list (list F)].  An array with no
      row is the empty list, whatever its number of columns.
    - Slices ([a[1:-1, :]], [a[:, :-1]], ...) follow Python's slice rules.
    - An operation numpy can refuse (operands of different shapes, an index
      out of bounds) returns [option]; [None] stands for the exception.
    - The constants at the head of the script are the fields of [Config];
      [script] holds the values the script gives them.
    - The arithmetic of the array elements is kept abstract in the class
      [Num]: every definition is written once and read either over the real
      numbers (exact arithmetic) or over IEEE binary64 (numpy's float64).
    - The plotting at the end of the loop body reads the fields and writes
      nothing back; it is left out. *)

From stdpp Require Import base option list.
From Stdlib Require Import ZArith Reals Lra Floats.

Set Default Proof Using "Type*".

(** ** Scalars *)

(** The arithmetic the script applies to array elements. *)
Class Num (F : Type) := {
  of_Z : Z → F;              (* an integer used where a float is expected *)
  lit_1em6 : F;              (* the literal 0.000001 *)
  fadd : F → F → F;
  fsub : F → F → F;
  fmul : F → F → F;
  fdiv : F → F → F;
}.

(** The elementary functions and the constant it takes from the library. *)
Class Elementary (F : Type) := {
  fexp : F → F;              (* sp.exp *)
  fcos : F → F;              (* sp.cos *)
  fsin : F → F;              (* sp.sin *)
  fpi  : F;                  (* sp.pi *)
}.

(** ** numpy arrays *)

Module Np.
Section Slices.
Context {T : Type}.

(** An index of a slice bound, normalised as Python does for a sequence of
    length [n]: a negative index counts from the end, and the result is
    clipped to [0 .. n]. *)
Definition norm_index (n : nat) (i : Z) : nat :=
  Z.to_nat (Z.min (Z.max (if (i <? 0)%Z then i + Z.of_nat n else i) 0)
                  (Z.of_nat n))%Z.

Definition start_of (n : nat) (lo : option Z) : nat :=
  match lo with None => 0 | Some i => norm_index n i end.

Definition stop_of (n : nat) (hi : option Z) : nat :=
  match hi with None => n | Some i => norm_index n i end.

(** The bounds [lo:hi] of a slice, either of which may be left out. *)
Definition bounds : Type := option Z * option Z.
Definition from (i : Z) : bounds := (Some i, None).            (* [i:] *)
Definition upto (j : Z) : bounds := (None, Some j).            (* [:j] *)
Definition between (i j : Z) : bounds := (Some i, Some j).     (* [i:j] *)

(** [l[lo:hi]] *)
Definition slice (b : bounds) (l : list T) : list T :=
  let i := start_of (length l) b.1 in
  let j := stop_of (length l) b.2 in
  take (j - i) (drop i l).

(** The number of elements of a slice of a list of length [n]. *)
Definition slice_len (b : bounds) (n : nat) : nat :=
  stop_of n b.2 - start_of n b.1.
End Slices.
Arguments from i%_Z.
Arguments upto j%_Z.
Arguments between (i j)%_Z.

Section Arrays.
Context {A : Type}.

(** [a.shape], as the list of the row lengths. *)
Definition shape (a : list (list A)) : list nat := length <$> a.

(** [sp.zeros((n, m))], [sp.ones((n, m))] with the fill value given. *)
Definition full (n m : nat) (x : A) : list (list A) :=
  replicate n (replicate m x).

(** [a[lo:hi, :]] *)
Definition rows (b : bounds) (a : list (list A)) : list (list A) :=
  slice b a.

(** [a[:, lo:hi]] *)
Definition cols (b : bounds) (a : list (list A)) : list (list A) :=
  slice b <$> a.

(** [sp.hstack((a, b))]: the rows of [b] appended to the rows of [a];
    numpy refuses arrays with different numbers of rows. *)
Definition hstack (a b : list (list A)) : option (list (list A)) :=
  if decide (length a = length b) then Some (zip_with app a b) else None.

(** [a op b], element by element.  The script never relies on
    broadcasting between two arrays, so operands of different shapes are
    refused, as numpy refuses shapes that do not match. *)
Definition ew2 (f : A → A → A) (a b : list (list A)) : option (list (list A)) :=
  if decide (shape a = shape b) then Some (zip_with (zip_with f) a b) else None.

(** [a op k] and [k op a] for a scalar [k], and a function applied to
    every element. *)
Definition ew1 {B} (f : A → B) (a : list (list A)) : list (list B) :=
  fmap (M:=list) (fmap (M:=list) f) a.

(** [a[lo:hi, :] = b]: the rows of the slice are replaced by the rows of
    [b], which must have the shape of the slice. *)
Definition assign_rows (bd : bounds) (a b : list (list A))
  : option (list (list A)) :=
  let i := start_of (length a) bd.1 in
  let j := stop_of (length a) bd.2 in
  if decide (shape (rows bd a) = shape b)
  then Some (take i a ++ b ++ drop (i + (j - i)) a)
  else None.

(** [a[i, j] = f(a[i, j])], an [IndexError] when [(i, j)] is outside. *)
Definition update_at (f : A → A) (i j : nat) (a : list (list A))
  : option (list (list A)) :=
  row ← a !! i;
  x ← row !! j;
  Some (<[i := <[j := f x]> row]> a).

(** [a] has [n] rows of [m] elements each. *)
Definition has_shape (n m : nat) (a : list (list A)) : Prop :=
  shape a = replicate n m.
End Arrays.

(** [a[i, j]], with the default element outside the array. *)
Definition at2 {A} `{!Inhabited A} (a : list (list A)) (i j : nat) : A :=
  (a !!! i) !!! j.

(** [cells n m g a]: [a] has [n] rows of [m] elements, and [g i j] is the
    element at row [i] and column [j]. *)
Definition cells {A} `{!Inhabited A} (n m : nat) (g : nat → nat → A)
    (a : list (list A)) : Prop :=
  has_shape n m a ∧ ∀ i j, i < n → j < m → at2 a i j = g i j.
End Np.

Notation "a .[ i , j ]" := (Np.at2 a i j)
  (at level 1, left associativity, format "a .[ i ,  j ]").

(** ** The script *)

(** The module-level constants of the script. *)
Record Config := {
  SIZE_R : nat;
  SIZE_PHI : nat;
  MAXTIME : nat;
  delta_r : Z;
  delta_phi : Z;
  delta_t : Z;
  EPSILON0 : Z;
  MU0 : Z;
  (* the cell of the source, [E_z[50, 90] += ...] *)
  src_r : nat;
  src_phi : nat;
}.

(** The values they have in the script. *)
Definition script : Config := {|
  SIZE_R := 100; SIZE_PHI := 180; MAXTIME := 1000;
  delta_r := 1; delta_phi := 2; delta_t := 1;
  EPSILON0 := 1; MU0 := 1;
  src_r := 50; src_phi := 90;
|}.

(** The script with the permeability [MU0] set to zero. *)
Definition script_zero_mu : Config := {|
  SIZE_R := 100; SIZE_PHI := 180; MAXTIME := 1000;
  delta_r := 1; delta_phi := 2; delta_t := 1;
  EPSILON0 := 1; MU0 := 0;
  src_r := 50; src_phi := 90;
|}.

(** The three fields, the state of the loop. *)
Record Fields (F : Type) := {
  E_z : list (list F);
  H_r : list (list F);
  H_phi : list (list F);
}.
Arguments E_z {F} _.
Arguments H_r {F} _.
Arguments H_phi {F} _.

(** The arrays the update equations read and never write. *)
Record Coeffs (F : Type) := {
  cH_r_H : list (list F);
  cH_r_E_z : list (list F);
  cH_phi_H : list (list F);
  cH_phi_E_z : list (list F);
  cE_z_E : list (list F);
  E_z_h_phi_fwd_avg : list (list F);
  E_z_h_phi_bwd_avg : list (list F);
  cE_z_H_phi : list (list F);
  cE_z_H_r : list (list F);
}.
Arguments cH_r_H {F} _.
Arguments cH_r_E_z {F} _.
Arguments cH_phi_H {F} _.
Arguments cH_phi_E_z {F} _.
Arguments cE_z_E {F} _.
Arguments E_z_h_phi_fwd_avg {F} _.
Arguments E_z_h_phi_bwd_avg {F} _.
Arguments cE_z_H_phi {F} _.
Arguments cE_z_H_r {F} _.

Section Script.
Context {F : Type} `{!Num F, !Elementary F}.
Import Np.

#[global] Instance Num_inhabited : Inhabited F := populate (of_Z 0).

Abbreviation arr := (list (list F)).

Definition zeros (n m : nat) : arr := full n m (of_Z 0).
Definition ones (n m : nat) : arr := full n m (of_Z 1).
(** [sp.ones(a.shape)] *)
Definition ones_like (a : arr) : arr := ew1 (λ _, of_Z 1) a.

Implicit Type cfg : Config.

(** *** Fields, medium and grid (lines 20-60) *)

(** The fields before the loop.  [SIZE_R - 1] stops at [0]; numpy refuses
    a negative dimension, and the statements below are about grids with at
    least one radius. *)
Definition fields0 cfg : Fields F := {|
  E_z := zeros (SIZE_R cfg) (SIZE_PHI cfg);
  H_r := zeros (SIZE_R cfg) (SIZE_PHI cfg);
  H_phi := zeros (SIZE_R cfg - 1) (SIZE_PHI cfg);
|}.

Definition epsR cfg : arr :=
  ew1 (fmul (of_Z (EPSILON0 cfg))) (ones (SIZE_R cfg) (SIZE_PHI cfg)).
Definition muR cfg : arr :=
  ew1 (fmul (of_Z (MU0 cfg))) (ones (SIZE_R cfg) (SIZE_PHI cfg)).

(** [sp.mgrid[0:SIZE_R, 0:SIZE_PHI]]: [grid[0][i, j] = i] and
    [grid[1][i, j] = j], as integers. *)
Definition grid0 cfg : list (list Z) :=
  (λ i, replicate (SIZE_PHI cfg) (Z.of_nat i)) <$> seq 0 (SIZE_R cfg).
Definition grid1 cfg : list (list Z) :=
  replicate (SIZE_R cfg) (Z.of_nat <$> seq 0 (SIZE_PHI cfg)).

(** [r = sp.array(grid[0], dtype=float)] followed by [r[0, :] = 0.000001]:
    the array [r] after the assignment. *)
Definition r cfg : option arr :=
  let r := ew1 of_Z (grid0 cfg) in
  row0 ← r !! 0;
  Some (<[0 := fmap (M:=list) (λ _, lit_1em6) row0]> r).

(** [phi = 2 * grid[1]] *)
Definition phi cfg : list (list Z) :=
  ew1 (λ j, 2 * j)%Z (grid1 cfg).

(** [sp.pi * phi / 180] *)
Definition phi_rad cfg : arr :=
  ew1 (λ p, fdiv (fmul fpi (of_Z p)) (of_Z 180)) (phi cfg).

Definition gridx cfg : option arr :=
  r ← r cfg; ew2 fmul r (ew1 fcos (phi_rad cfg)).
Definition gridy cfg : option arr :=
  r ← r cfg; ew2 fmul r (ew1 fsin (phi_rad cfg)).

Definition h_r cfg : arr := ones (SIZE_R cfg) (SIZE_PHI cfg).
(** [h_phi = r]: the same array object as [r], which is not written again. *)
Definition h_phi cfg : option arr := r cfg.
Definition h_z cfg : arr := ones (SIZE_R cfg) (SIZE_PHI cfg).

(** *** Coefficients for the update equations (lines 62-93) *)

(** [(a + b) / 2] *)
Definition half_sum (a b : arr) : option arr :=
  s ← ew2 fadd a b; Some (ew1 (λ x, fdiv x (of_Z 2)) s).

(** The coefficient arrays, from the fields (for their shapes), the medium
    and the scale factors. *)
Definition coefficients cfg (fs : Fields F) (epsR muR h_r h_phi h_z : arr)
  : option (Coeffs F) :=
  (* Coefficients for the H_r update *)
  let cH_r_H := ones_like (H_r fs) in
  H_r_h_phi ← half_sum (cols (from 1) h_phi) (cols (upto (-1)) h_phi);
  w ← half_sum (cols (upto 1) h_phi) (cols (from (-1)) h_phi);
  H_r_h_phi ← hstack H_r_h_phi w;
  H_r_muR ← half_sum (cols (from 1) muR) (cols (upto (-1)) muR);
  w ← half_sum (cols (upto 1) muR) (cols (from (-1)) muR);
  H_r_muR ← hstack H_r_muR w;
  d ← ew2 fmul (ew1 (λ x, fmul x (of_Z (delta_phi cfg))) H_r_muR) H_r_h_phi;
  d ← ew2 fmul d h_z;
  let cH_r_E_z := ew1 (fdiv (of_Z (- delta_t cfg))) d in
  (* Coefficients for the H_phi update *)
  let cH_phi_H := ones_like (H_phi fs) in
  H_phi_h_r ← half_sum (rows (from 1) h_r) (rows (upto (-1)) h_r);
  H_phi_h_z ← half_sum (rows (from 1) h_z) (rows (upto (-1)) h_z);
  H_phi_muR ← half_sum (rows (from 1) muR) (rows (upto (-1)) muR);
  d ← ew2 fmul (ew1 (λ x, fmul x (of_Z (delta_r cfg))) H_phi_muR) H_phi_h_r;
  d ← ew2 fmul d H_phi_h_z;
  let cH_phi_E_z := ew1 (fdiv (of_Z (delta_t cfg))) d in
  (* Coefficients for the E_z update *)
  let cE_z_E := ones_like (rows (between 1 (-1)) (E_z fs)) in
  let E_z_epsR := rows (between 1 (-1)) epsR in
  let E_z_h_r := rows (between 1 (-1)) h_r in
  let E_z_h_phi := rows (between 1 (-1)) h_phi in
  E_z_h_phi_fwd_avg ←
    half_sum (rows (from 2) h_phi) (rows (between 1 (-1)) h_phi);
  E_z_h_phi_bwd_avg ←
    half_sum (rows (between 1 (-1)) h_phi) (rows (upto (-2)) h_phi);
  d ← ew2 fmul (ew1 (λ x, fmul x (of_Z (delta_r cfg))) E_z_epsR) E_z_h_r;
  d ← ew2 fmul d E_z_h_phi;
  let cE_z_H_phi := ew1 (fdiv (of_Z (delta_t cfg))) d in
  d ← ew2 fmul (ew1 (λ x, fmul x (of_Z (delta_phi cfg))) E_z_epsR) E_z_h_r;
  d ← ew2 fmul d E_z_h_phi;
  let cE_z_H_r := ew1 (fdiv (of_Z (- delta_t cfg))) d in
  Some {|
    cH_r_H := cH_r_H; cH_r_E_z := cH_r_E_z;
    cH_phi_H := cH_phi_H; cH_phi_E_z := cH_phi_E_z;
    cE_z_E := cE_z_E;
    E_z_h_phi_fwd_avg := E_z_h_phi_fwd_avg;
    E_z_h_phi_bwd_avg := E_z_h_phi_bwd_avg;
    cE_z_H_phi := cE_z_H_phi; cE_z_H_r := cE_z_H_r;
  |}.

(** The coefficient arrays of the script. *)
Definition script_coefficients cfg : option (Coeffs F) :=
  h_phi ← h_phi cfg;
  coefficients cfg (fields0 cfg) (epsR cfg) (muR cfg) (h_r cfg) h_phi (h_z cfg).

(** *** The update equations (lines 98-134) *)

Implicit Type c : Coeffs F.
Implicit Type fs : Fields F.

(** [E_z[:, 1:] - E_z[:, :-1]] with the column [E_z[:, :1] - E_z[:, -1:]]
    stacked after it. *)
Definition delta_E_z (E_z : arr) : option arr :=
  d ← ew2 fsub (cols (from 1) E_z) (cols (upto (-1)) E_z);
  w ← ew2 fsub (cols (upto 1) E_z) (cols (from (-1)) E_z);
  hstack d w.

(** Update H-field, r-component *)
Definition update_H_r c fs : option (Fields F) :=
  delta_E_z ← delta_E_z (E_z fs);
  a ← ew2 fmul (cH_r_H c) (H_r fs);
  b ← ew2 fmul (cH_r_E_z c) delta_E_z;
  H_r' ← ew2 fadd a b;
  Some {| E_z := E_z fs; H_r := H_r'; H_phi := H_phi fs |}.

(** Update H-field, phi-component *)
Definition update_H_phi c fs : option (Fields F) :=
  a ← ew2 fmul (cH_phi_H c) (H_phi fs);
  d ← ew2 fsub (rows (from 1) (E_z fs)) (rows (upto (-1)) (E_z fs));
  b ← ew2 fmul (cH_phi_E_z c) d;
  H_phi' ← ew2 fadd a b;
  Some {| E_z := E_z fs; H_r := H_r fs; H_phi := H_phi' |}.

(** [H_r[1:-1, 1:] - H_r[1:-1, :-1]] with the column
    [H_r[1:-1, :1] - H_r[1:-1, -1:]] stacked before it. *)
Definition delta_H_r (H_r : arr) : option arr :=
  let H_r_in := rows (between 1 (-1)) H_r in
  d ← ew2 fsub (cols (from 1) H_r_in) (cols (upto (-1)) H_r_in);
  w ← ew2 fsub (cols (upto 1) H_r_in) (cols (from (-1)) H_r_in);
  hstack w d.

(** Update E-field, z-component *)
Definition update_E_z c fs : option (Fields F) :=
  delta_H_r ← delta_H_r (H_r fs);
  a ← ew2 fmul (cE_z_E c) (rows (between 1 (-1)) (E_z fs));
  f ← ew2 fmul (E_z_h_phi_fwd_avg c) (rows (from 1) (H_phi fs));
  b ← ew2 fmul (E_z_h_phi_bwd_avg c) (rows (upto (-1)) (H_phi fs));
  d ← ew2 fsub f b;
  p ← ew2 fmul (cE_z_H_phi c) d;
  q ← ew2 fmul (cE_z_H_r c) delta_H_r;
  ap ← ew2 fadd a p;
  rhs ← ew2 fadd ap q;
  E_z' ← assign_rows (between 1 (-1)) (E_z fs) rhs;
  Some {| E_z := E_z'; H_r := H_r fs; H_phi := H_phi fs |}.

(** [sp.exp(-(t-30) * (t-30) / 100.0)] *)
Definition gaussian (t : nat) : F :=
  fexp (fdiv (of_Z (- (Z.of_nat t - 30) * (Z.of_nat t - 30))) (of_Z 100)).

(** [E_z[50, 90] += source(t)] *)
Definition inject cfg (source : nat → F) (t : nat) fs : option (Fields F) :=
  E_z' ← update_at (λ x, fadd x (source t)) (src_r cfg) (src_phi cfg) (E_z fs);
  Some {| E_z := E_z'; H_r := H_r fs; H_phi := H_phi fs |}.

(** The body of the loop, at step [t]. *)
Definition step cfg c (source : nat → F) (t : nat) fs : option (Fields F) :=
  fs ← update_H_r c fs;
  fs ← update_H_phi c fs;
  fs ← update_E_z c fs;
  inject cfg source t fs.

(** The loop over the steps [ts]. *)
Fixpoint loop cfg c (source : nat → F) (ts : list nat) fs
  : option (Fields F) :=
  match ts with
  | [] => Some fs
  | t :: ts => fs ← step cfg c source t fs; loop cfg c source ts fs
  end.

(** The fields after the first [n] rounds of the loop
    [for t in range(1, MAXTIME)], with the source profile [source]. *)
Definition run_with cfg (source : nat → F) (n : nat) : option (Fields F) :=
  c ← script_coefficients cfg;
  loop cfg c source (seq 1 n) (fields0 cfg).

(** The script: the Gaussian source, to the end of the loop. *)
Definition run cfg : option (Fields F) :=
  run_with cfg gaussian (MAXTIME cfg - 1).

(** *** Shapes *)

(** The shapes of the three fields on a grid of [n] by [m] cells. *)
Definition fields_ok (n m : nat) fs : Prop :=
  has_shape n m (E_z fs) ∧ has_shape n m (H_r fs) ∧
  has_shape (n - 1) m (H_phi fs).

(** The shapes of the coefficient arrays on that grid: each has the shape of
    the part of the field it updates. *)
Definition coeffs_ok (n m : nat) c : Prop :=
  has_shape n m (cH_r_H c) ∧ has_shape n m (cH_r_E_z c) ∧
  has_shape (n - 1) m (cH_phi_H c) ∧ has_shape (n - 1) m (cH_phi_E_z c) ∧
  has_shape (n - 2) m (cE_z_E c) ∧
  has_shape (n - 2) m (E_z_h_phi_fwd_avg c) ∧
  has_shape (n - 2) m (E_z_h_phi_bwd_avg c) ∧
  has_shape (n - 2) m (cE_z_H_phi c) ∧ has_shape (n - 2) m (cE_z_H_r c).

(** A source that injects nothing. *)
Definition zero_source (t : nat) : F := of_Z 0.

(** [a], of [n] rows and [m] columns, has the same value all along each
    row: it does not depend on the azimuth. *)
Definition phi_constant (n m : nat) (a : arr) : Prop :=
  ∀ i j j', i < n → j < m → j' < m → a.[i, j] = a.[i, j'].

(** *** The update equations cell by cell

    What the array expressions of the script compute at one place, on a grid
    of [m] azimuths; the theorems below show that they do. *)

(** The value [E_z[1:-1, :] = ...] writes at row [S i] and column [j];
    [i] counts the interior rows, as the coefficient arrays of E_z do. *)
Definition E_z_rhs (m : nat) c fs (i j : nat) : F :=
  fadd (fadd (fmul (cE_z_E c).[i, j] (E_z fs).[S i, j])
             (fmul (cE_z_H_phi c).[i, j]
                (fsub (fmul (E_z_h_phi_fwd_avg c).[i, j] (H_phi fs).[S i, j])
                      (fmul (E_z_h_phi_bwd_avg c).[i, j] (H_phi fs).[i, j]))))
       (fmul (cE_z_H_r c).[i, j]
             (fsub (H_r fs).[S i, j] (H_r fs).[S i, (j + m - 1) mod m])).

(** The mean of [a] over the two azimuths next to the place of [H_r]. *)
Definition phi_avg (m : nat) (a : arr) (i j : nat) : F :=
  fdiv (fadd a.[i, (j + 1) mod m] a.[i, j]) (of_Z 2).

(** The mean of [a] over the two radii next to the place of [H_phi]. *)
Definition r_avg (a : arr) (i j : nat) : F :=
  fdiv (fadd a.[S i, j] a.[i, j]) (of_Z 2).

(** The cells of the coefficient arrays, from the medium and the scale
    factors. *)
Definition cH_r_E_z_at cfg (m : nat) (muR h_phi h_z : arr) (i j : nat) : F :=
  fdiv (of_Z (- delta_t cfg))
       (fmul (fmul (fmul (phi_avg m muR i j) (of_Z (delta_phi cfg)))
                   (phi_avg m h_phi i j))
             h_z.[i, j]).

Definition cH_phi_E_z_at cfg (muR h_r h_z : arr) (i j : nat) : F :=
  fdiv (of_Z (delta_t cfg))
       (fmul (fmul (fmul (r_avg muR i j) (of_Z (delta_r cfg))) (r_avg h_r i j))
             (r_avg h_z i j)).

Definition cE_z_H_phi_at cfg (epsR h_r h_phi : arr) (i j : nat) : F :=
  fdiv (of_Z (delta_t cfg))
       (fmul (fmul (fmul epsR.[S i, j] (of_Z (delta_r cfg))) h_r.[S i, j])
             h_phi.[S i, j]).

Definition cE_z_H_r_at cfg (epsR h_r h_phi : arr) (i j : nat) : F :=
  fdiv (of_Z (- delta_t cfg))
       (fmul (fmul (fmul epsR.[S i, j] (of_Z (delta_phi cfg))) h_r.[S i, j])
             h_phi.[S i, j]).

(** The shapes and the cells of the nine coefficient arrays. *)
Definition coeffs_cells cfg (n m : nat)
    (epsR muR h_r h_phi h_z : arr) c : Prop :=
  cells n m (λ _ _, of_Z 1) (cH_r_H c) ∧
  cells n m (cH_r_E_z_at cfg m muR h_phi h_z) (cH_r_E_z c) ∧
  cells (n - 1) m (λ _ _, of_Z 1) (cH_phi_H c) ∧
  cells (n - 1) m (cH_phi_E_z_at cfg muR h_r h_z) (cH_phi_E_z c) ∧
  cells (n - 2) m (λ _ _, of_Z 1) (cE_z_E c) ∧
  cells (n - 2) m (λ i j, r_avg h_phi (S i) j) (E_z_h_phi_fwd_avg c) ∧
  cells (n - 2) m (λ i j, r_avg h_phi i j) (E_z_h_phi_bwd_avg c) ∧
  cells (n - 2) m (cE_z_H_phi_at cfg epsR h_r h_phi) (cE_z_H_phi c) ∧
  cells (n - 2) m (cE_z_H_r_at cfg epsR h_r h_phi) (cE_z_H_r c).
End Script.

(** ** Two readings of the scalars *)

(** Exact arithmetic over the real numbers. *)
#[global] Instance real : Num R := {|
  of_Z := IZR;
  lit_1em6 := (1 / 1000000)%R;
  fadd := Rplus; fsub := Rminus; fmul := Rmult; fdiv := Rdiv;
|}.

#[global] Instance real_elementary : Elementary R := {|
  fexp := exp; fcos := cos; fsin := sin; fpi := PI;
|}.

(** The facts of exact arithmetic that the proofs about zero fields use. *)
Class Exact (F : Type) `{!Num F} := {
  fadd_0_l x : fadd (of_Z 0) x = x;
  fsub_0_0 : fsub (of_Z 0) (of_Z 0) = of_Z 0;
  fmul_0_r x : fmul x (of_Z 0) = of_Z 0;
}.

#[global] Instance real_exact : Exact R.
Proof. split; intros; simpl; lra. Qed.

(** IEEE 754 binary64, the [float64] of numpy: the arithmetic only, the
    elementary functions are the C library's. *)
Module Binary64.
Import PrimFloat.

(** An integer as a float: the nearest binary64 number, ties to even, as
    Python converts an [int] that meets a [float].  It is exact up to
    [2^53], which covers the integers of the script.  Beyond the range of
    binary64 Python refuses the conversion; here it is an infinity. *)
Definition of_int (z : Z) : float :=
  SF2Prim (binary_normalize prec emax z 0 false).

(** [0.000001] is read as the nearest binary64 number. *)
#[global] Instance num : Num float := {|
  of_Z := of_int;
  lit_1em6 := 0x1.0c6f7a0b5ed8dp-20%float;
  fadd := add; fsub := sub; fmul := mul; fdiv := div;
|}.
End Binary64.

(** ** A small grid to try the definitions on *)

Module Demo.
Import Np.
Local Open Scope float_scope.

(** Four radii and three azimuths, the source at [(1, 1)]. *)
Definition cfg : Config := {|
  SIZE_R := 4; SIZE_PHI := 3; MAXTIME := 4;
  delta_r := 1; delta_phi := 2; delta_t := 1;
  EPSILON0 := 1; MU0 := 1;
  src_r := 1; src_phi := 1;
|}.

(** Some fields on that grid. *)
Definition fs : Fields float := {|
  E_z := [[1; 2; 4]; [8; 16; 32]; [64; 128; 256]; [512; 1024; 2048]];
  H_r := [[3; 5; 7]; [9; 11; 13]; [15; 17; 19]; [21; 23; 25]];
  H_phi := [[2; 3; 5]; [7; 11; 13]; [17; 19; 23]];
|}.

(** Some coefficient arrays of the shapes that grid asks for. *)
Definition c : Coeffs float := {|
  cH_r_H := full 4 3 1;
  cH_r_E_z := full 4 3 (-0.5);
  cH_phi_H := full 3 3 1;
  cH_phi_E_z := full 3 3 1;
  cE_z_E := full 2 3 1;
  E_z_h_phi_fwd_avg := [[1.5; 1.5; 1.5]; [2.5; 2.5; 2.5]];
  E_z_h_phi_bwd_avg := [[0.5; 0.5; 0.5]; [1.5; 1.5; 1.5]];
  cE_z_H_phi := [[1; 1; 1]; [0.5; 0.5; 0.5]];
  cE_z_H_r := [[-0.5; -0.5; -0.5]; [-0.25; -0.25; -0.25]];
|}.

(** Stand-ins for the elementary functions of the C library, to try the
    theorems on: [exp] as its Taylor polynomial of degree 4 at [x / 1024],
    squared ten times; [cos] and [sin] as their Taylor polynomials of degree
    4 and 3.  At [-8.41] the first gives [0.00022262985699...], where
    [exp(-8.41)] is [0.00022262985691...]. *)
Definition exp_approx (x : float) : float :=
  let y := x / 1024 in
  Nat.iter 10 (λ q, q * q) (1 + y * (1 + y / 2 * (1 + y / 3 * (1 + y / 4)))).

Definition elementary : Elementary float := {|
  fexp := exp_approx;
  fcos x := 1 - x * x / 2 * (1 - x * x / 12);
  fsin x := x * (1 - x * x / 6);
  fpi := 0x1.921fb54442d18p+1;
|}.
End Demo.

(** ** Facts about the array operations *)

Module NpFacts.
Import Np.

Section Slices.
Context {T : Type} `{!Inhabited T}.
Implicit Type l : list T.

Lemma norm_index_nonneg n i :
  (0 ≤ i)%Z → norm_index n i = Z.to_nat i `min` n.
Proof.
  intros Hi. unfold norm_index.
  destruct (Z.ltb_spec i 0); lia.
Qed.

Lemma norm_index_neg n i :
  (i < 0)%Z → norm_index n i = n - Z.to_nat (- i).
Proof.
  intros Hi. unfold norm_index.
  destruct (Z.ltb_spec i 0); lia.
Qed.

Lemma norm_index_le n i : norm_index n i ≤ n.
Proof. unfold norm_index. lia. Qed.

Lemma start_of_le n lo : start_of n lo ≤ n.
Proof. destruct lo; simpl; [apply norm_index_le | lia]. Qed.

Lemma stop_of_le n hi : stop_of n hi ≤ n.
Proof. destruct hi; simpl; [apply norm_index_le | lia]. Qed.

Lemma length_slice b l : length (slice b l) = slice_len b (length l).
Proof.
  unfold slice, slice_len. rewrite length_take, length_drop.
  pose proof (stop_of_le (length l) b.2). lia.
Qed.

Lemma lookup_total_slice b l k :
  k < slice_len b (length l) →
  slice b l !!! k = l !!! (start_of (length l) b.1 + k).
Proof.
  intros Hk. unfold slice, slice_len in *.
  by rewrite lookup_total_take_lt, lookup_total_drop by lia.
Qed.
End Slices.

Section Cells.
Context {A : Type} `{!Inhabited A}.
Implicit Types a b c : list (list A).
Implicit Type g h : nat → nat → A.

Lemma has_shape_alt n m a :
  has_shape n m a ↔
  length a = n ∧ ∀ i row, a !! i = Some row → length row = m.
Proof.
  unfold has_shape, shape. split.
  - intros Hs. split.
    + apply (f_equal length) in Hs.
      by rewrite length_fmap, length_replicate in Hs.
    + intros i row Hrow.
      apply (f_equal (.!! i)) in Hs.
      rewrite list_lookup_fmap, Hrow in Hs. simpl in Hs.
      symmetry in Hs. by apply lookup_replicate_1 in Hs as [-> _].
  - intros [Hn Hrows]. apply list_eq. intros i.
    rewrite list_lookup_fmap.
    destruct (a !! i) as [row|] eqn:Hi; simpl.
    + rewrite lookup_replicate_2 by (apply lookup_lt_Some in Hi; lia).
      f_equal. eauto.
    + symmetry. apply lookup_replicate_None.
      apply lookup_ge_None in Hi. lia.
Qed.

Lemma has_shape_length n m a : has_shape n m a → length a = n.
Proof. rewrite has_shape_alt. tauto. Qed.

Lemma has_shape_row n m a i :
  has_shape n m a → i < n → length (a !!! i) = m.
Proof.
  rewrite has_shape_alt. intros [Hn Hrows] Hi.
  apply (Hrows i). apply list_lookup_lookup_total_lt. lia.
Qed.

Lemma cells_self n m a : has_shape n m a → cells n m (λ i j, a.[i, j]) a.
Proof. by split. Qed.

Lemma cells_ext n m g h a :
  (∀ i j, i < n → j < m → g i j = h i j) → cells n m g a → cells n m h a.
Proof.
  intros Hgh [Hs Hg]. split; [done|].
  intros i j Hi Hj. rewrite Hg by done. auto.
Qed.

Lemma cells_shape n m g a : cells n m g a → has_shape n m a.
Proof. by intros [? _]. Qed.

Lemma cells_at n m g a i j :
  cells n m g a → i < n → j < m → a.[i, j] = g i j.
Proof. intros [_ Hg]. apply Hg. Qed.

(** Two arrays with the same cells are the same array. *)
Lemma cells_inj n m g a b : cells n m g a → cells n m g b → a = b.
Proof.
  intros [Ha Hga] [Hb Hgb].
  pose proof (has_shape_length _ _ _ Ha) as Hla.
  pose proof (has_shape_length _ _ _ Hb) as Hlb.
  apply list_eq. intros i.
  destruct (decide (i < n)) as [Hi|Hi].
  - rewrite !list_lookup_lookup_total_lt by lia. f_equal.
    pose proof (has_shape_row _ _ _ i Ha Hi) as Hra.
    pose proof (has_shape_row _ _ _ i Hb Hi) as Hrb.
    apply list_eq. intros j.
    destruct (decide (j < m)) as [Hj|Hj].
    + rewrite !list_lookup_lookup_total_lt by lia. f_equal.
      specialize (Hga i j Hi Hj). specialize (Hgb i j Hi Hj).
      unfold at2 in *. congruence.
    + rewrite !lookup_ge_None_2 by lia. done.
  - rewrite !lookup_ge_None_2 by lia. done.
Qed.

Lemma cells_full n m (x : A) : cells n m (λ _ _, x) (full n m x).
Proof.
  unfold full. split.
  - unfold has_shape, shape. by rewrite fmap_replicate, length_replicate.
  - intros i j Hi Hj. unfold at2.
    by rewrite !lookup_total_replicate_2.
Qed.

Lemma cells_zip (f : A → A → A) n m g h a b :
  cells n m g a → cells n m h b →
  cells n m (λ i j, f (g i j) (h i j)) (zip_with (zip_with f) a b).
Proof.
  intros [Ha Hg] [Hb Hh].
  pose proof (has_shape_length _ _ _ Ha) as Hla.
  pose proof (has_shape_length _ _ _ Hb) as Hlb.
  assert (∀ i, i < n →
    zip_with (zip_with f) a b !! i = Some (zip_with f (a !!! i) (b !!! i)))
    as Hrow.
  { intros i Hi. rewrite lookup_zip_with.
    rewrite !list_lookup_lookup_total_lt by lia. done. }
  split.
  - apply has_shape_alt. split.
    + rewrite length_zip_with. lia.
    + intros i row Hi.
      assert (i < n) as Hin.
      { apply lookup_lt_Some in Hi. rewrite length_zip_with in Hi. lia. }
      rewrite Hrow in Hi by done. injection Hi as <-.
      rewrite length_zip_with.
      rewrite (has_shape_row _ _ _ i Ha), (has_shape_row _ _ _ i Hb) by done.
      lia.
  - intros i j Hi Hj. unfold at2 in *.
    rewrite (list_lookup_total_correct _ _ _ (Hrow i Hi)).
    apply list_lookup_total_correct. rewrite lookup_zip_with.
    pose proof (has_shape_row _ _ _ i Ha Hi).
    pose proof (has_shape_row _ _ _ i Hb Hi).
    rewrite !list_lookup_lookup_total_lt by lia. simpl.
    by rewrite Hg, Hh.
Qed.

(** On arrays of one shape the element-wise operations succeed. *)
Lemma ew2_cells (f : A → A → A) n m g h a b :
  cells n m g a → cells n m h b →
  ∃ c, ew2 f a b = Some c ∧ cells n m (λ i j, f (g i j) (h i j)) c.
Proof.
  intros Ha Hb. exists (zip_with (zip_with f) a b). split.
  - unfold ew2. destruct Ha as [Ha _], Hb as [Hb _].
    unfold has_shape in *. rewrite decide_True; [done|congruence].
  - by apply cells_zip.
Qed.

Lemma cells_cols bd n m g a :
  cells n m g a →
  cells n (slice_len bd m) (λ i j, g i (start_of m bd.1 + j)) (cols bd a).
Proof.
  intros [Ha Hg]. pose proof (has_shape_length _ _ _ Ha) as Hla.
  assert (slice_len bd m ≤ m) as Hle.
  { unfold slice_len. pose proof (stop_of_le m bd.2). lia. }
  assert (∀ i, i < n → cols bd a !! i = Some (slice bd (a !!! i))) as Hrow.
  { intros i Hi. unfold cols.
    rewrite list_lookup_fmap, list_lookup_lookup_total_lt by lia. done. }
  split.
  - apply has_shape_alt. unfold cols. split.
    + by rewrite length_fmap.
    + intros i row Hi.
      assert (i < n) as Hin.
      { apply lookup_lt_Some in Hi. rewrite length_fmap in Hi. lia. }
      fold (cols bd a) in Hi. rewrite Hrow in Hi by done. injection Hi as <-.
      rewrite length_slice. by rewrite (has_shape_row _ _ _ i Ha).
  - intros i j Hi Hj. unfold at2 in *.
    rewrite (list_lookup_total_correct _ _ _ (Hrow i Hi)).
    pose proof (has_shape_row _ _ _ i Ha Hi) as Hr.
    rewrite lookup_total_slice by (by rewrite Hr).
    rewrite Hr. apply Hg; [done|].
    unfold slice_len in Hj. pose proof (stop_of_le m bd.2). lia.
Qed.

Lemma cells_rows bd n m g a :
  cells n m g a →
  cells (slice_len bd n) m (λ i j, g (start_of n bd.1 + i) j) (rows bd a).
Proof.
  intros [Ha Hg]. pose proof (has_shape_length _ _ _ Ha) as Hla.
  assert (∀ i, i < slice_len bd n →
    start_of n bd.1 + i < n ∧
    rows bd a !!! i = a !!! (start_of n bd.1 + i)) as Hrow.
  { intros i Hi. split.
    - unfold slice_len in Hi. pose proof (stop_of_le n bd.2). lia.
    - unfold rows. rewrite lookup_total_slice by (by rewrite Hla).
      by rewrite Hla. }
  split.
  - apply has_shape_alt. unfold rows. split.
    + by rewrite length_slice, Hla.
    + intros i row Hi.
      assert (i < slice_len bd n) as Hin.
      { apply lookup_lt_Some in Hi. by rewrite length_slice, Hla in Hi. }
      apply list_lookup_total_correct in Hi. fold (rows bd a) in Hi.
      destruct (Hrow i Hin) as [Hlt Heq]. rewrite Heq in Hi. subst row.
      by apply (has_shape_row _ _ _ _ Ha).
  - intros i j Hi Hj. unfold at2 in *.
    destruct (Hrow i Hi) as [Hlt ->]. by apply Hg.
Qed.

Lemma hstack_cells n m1 m2 g h a b :
  cells n m1 g a → cells n m2 h b →
  ∃ c, hstack a b = Some c ∧
    cells n (m1 + m2) (λ i j, if decide (j < m1) then g i j else h i (j - m1)) c.
Proof.
  intros [Ha Hg] [Hb Hh].
  pose proof (has_shape_length _ _ _ Ha) as Hla.
  pose proof (has_shape_length _ _ _ Hb) as Hlb.
  exists (zip_with app a b). split.
  { unfold hstack. rewrite decide_True; [done|lia]. }
  assert (∀ i, i < n →
    zip_with app a b !! i = Some (a !!! i ++ b !!! i)) as Hrow.
  { intros i Hi. rewrite lookup_zip_with.
    rewrite !list_lookup_lookup_total_lt by lia. done. }
  split.
  - apply has_shape_alt. split.
    + rewrite length_zip_with. lia.
    + intros i row Hi.
      assert (i < n) as Hin.
      { apply lookup_lt_Some in Hi. rewrite length_zip_with in Hi. lia. }
      rewrite Hrow in Hi by done. injection Hi as <-.
      rewrite length_app.
      by rewrite (has_shape_row _ _ _ i Ha), (has_shape_row _ _ _ i Hb).
  - intros i j Hi Hj. unfold at2 in *.
    rewrite (list_lookup_total_correct _ _ _ (Hrow i Hi)).
    pose proof (has_shape_row _ _ _ i Ha Hi) as Hra.
    pose proof (has_shape_row _ _ _ i Hb Hi) as Hrb.
    case_decide.
    + rewrite lookup_total_app_l by lia. by apply Hg.
    + rewrite lookup_total_app_r by lia. rewrite Hra. apply Hh; [done|lia].
Qed.

Lemma assign_rows_cells bd n m g h a b :
  cells n m g a → cells (slice_len bd n) m h b →
  ∃ c, assign_rows bd a b = Some c ∧
    cells n m (λ i j, if decide (start_of n bd.1 ≤ i < start_of n bd.1 + slice_len bd n)
                      then h (i - start_of n bd.1) j else g i j) c.
Proof.
  intros Ha Hb. pose proof (cells_rows bd _ _ _ _ Ha) as [Hr _].
  destruct Ha as [Ha Hg], Hb as [Hb Hh].
  pose proof (has_shape_length _ _ _ Ha) as Hla.
  pose proof (has_shape_length _ _ _ Hb) as Hlb.
  pose proof (start_of_le n bd.1) as Hlo.
  pose proof (stop_of_le n bd.2) as Hhi.
  unfold assign_rows. rewrite decide_True by (unfold has_shape in *; congruence).
  rewrite Hla. fold (slice_len bd n).
  set (i0 := start_of n bd.1) in *. set (k := slice_len bd n) in *.
  assert (i0 + k ≤ n) as Hk by (unfold k, slice_len; lia).
  eexists. split; [done|].
  assert (∀ i, i < n →
    (take i0 a ++ b ++ drop (i0 + k) a) !!! i =
    if decide (i0 ≤ i < i0 + k) then b !!! (i - i0) else a !!! i) as Hrow.
  { intros i Hi. case_decide.
    - rewrite lookup_total_app_r by (rewrite length_take; lia).
      rewrite length_take, Nat.min_l by lia.
      by rewrite lookup_total_app_l by lia.
    - destruct (decide (i < i0)).
      + rewrite lookup_total_app_l by (rewrite length_take; lia).
        by rewrite lookup_total_take_lt.
      + rewrite lookup_total_app_r by (rewrite length_take; lia).
        rewrite length_take, Nat.min_l by lia.
        rewrite lookup_total_app_r by lia.
        rewrite lookup_total_drop. f_equal. lia. }
  split.
  - apply has_shape_alt. split.
    + rewrite !length_app, length_take, length_drop. lia.
    + intros i row Hi.
      assert (i < n) as Hin.
      { apply lookup_lt_Some in Hi.
        rewrite !length_app, length_take, length_drop in Hi. lia. }
      apply list_lookup_total_correct in Hi. rewrite Hrow in Hi by done.
      subst row. case_decide.
      * apply (has_shape_row _ _ _ _ Hb). lia.
      * by apply (has_shape_row _ _ _ _ Ha).
  - intros i j Hi Hj. unfold at2 in *. rewrite Hrow by done.
    case_decide; [apply Hh; [lia|done] | by apply Hg].
Qed.

Lemma update_at_cells (f : A → A) i0 j0 n m g a :
  cells n m g a → i0 < n → j0 < m →
  ∃ c, update_at f i0 j0 a = Some c ∧
    cells n m (λ i j, if decide (i = i0 ∧ j = j0) then f (g i0 j0) else g i j) c.
Proof.
  intros [Ha Hg] Hi0 Hj0.
  pose proof (has_shape_length _ _ _ Ha) as Hla.
  pose proof (has_shape_row _ _ _ i0 Ha Hi0) as Hr0.
  unfold update_at.
  rewrite (list_lookup_lookup_total_lt a i0) by lia. simpl.
  rewrite (list_lookup_lookup_total_lt (a !!! i0) j0) by lia. simpl.
  eexists. split; [done|]. split.
  - apply has_shape_alt. split; [by rewrite length_insert|].
    intros i row Hi. destruct (decide (i = i0)) as [->|Hne].
    + rewrite list_lookup_insert_eq in Hi by lia. injection Hi as <-.
      by rewrite length_insert.
    + rewrite list_lookup_insert_ne in Hi by done.
      apply has_shape_alt in Ha as [_ Hrows]. eauto.
  - intros i j Hi Hj. unfold at2 in *.
    destruct (decide (i = i0)) as [->|Hne].
    + rewrite list_lookup_total_insert_eq by lia.
      destruct (decide (j = j0)) as [->|Hnej].
      * rewrite list_lookup_total_insert_eq by lia.
        rewrite decide_True by done. by rewrite Hg.
      * rewrite list_lookup_total_insert_ne by done.
        rewrite decide_False by tauto. by apply Hg.
    + rewrite list_lookup_total_insert_ne by done.
      rewrite decide_False by tauto. by apply Hg.
Qed.
End Cells.

Section Map.
Context {A B : Type} `{!Inhabited A, !Inhabited B}.

Lemma cells_ew1 (f : B → A) n m (g : nat → nat → B) (a : list (list B)) :
  has_shape n m a →
  (∀ i j, i < n → j < m → a.[i, j] = g i j) →
  cells n m (λ i j, f (g i j)) (ew1 f a).
Proof.
  intros Hs Hg. pose proof (has_shape_length _ _ _ Hs) as Hl.
  assert (∀ i, i < n → length (a !!! i) = m) as Hrow
    by (intros; by eapply has_shape_row).
  unfold ew1. split.
  - unfold has_shape, shape in *. rewrite <- Hs, <- list_fmap_compose.
    apply list_fmap_ext. intros _ row _. simpl. apply length_fmap.
  - intros i j Hi Hj. unfold at2 in *.
    rewrite (list_lookup_total_correct _ i (f <$> a !!! i)).
    + rewrite (list_lookup_total_correct _ j (f ((a !!! i) !!! j))).
      * by rewrite Hg.
      * rewrite list_lookup_fmap, list_lookup_lookup_total_lt; [done|].
        rewrite Hrow by done. done.
    + rewrite list_lookup_fmap, list_lookup_lookup_total_lt by lia. done.
Qed.
End Map.

(** The slices the script takes. *)
Section ScriptSlices.
Context {A : Type} `{!Inhabited A}.
Implicit Types a b c : list (list A).
Implicit Type g h : nat → nat → A.

Lemma cells_cast n m m' g h a :
  cells n m g a → m = m' →
  (∀ i j, i < n → j < m' → g i j = h i j) → cells n m' h a.
Proof. intros Ha <- Hgh. by eapply cells_ext. Qed.

Lemma cells_cols_as bd n m m' g h a :
  cells n m g a → slice_len bd m = m' →
  (∀ i j, i < n → j < m' → g i (start_of m bd.1 + j) = h i j) →
  cells n m' h (cols bd a).
Proof.
  intros Ha <- Hgh. eapply cells_ext; [|by apply cells_cols]. done.
Qed.

Lemma cells_rows_as bd n n' m g h a :
  cells n m g a → slice_len bd n = n' →
  (∀ i j, i < n' → j < m → g (start_of n bd.1 + i) j = h i j) →
  cells n' m h (rows bd a).
Proof.
  intros Ha <- Hgh. eapply cells_ext; [|by apply cells_rows]. done.
Qed.

Ltac slice_arith :=
  unfold slice_len, start_of, stop_of, from, upto, between;
  cbn [fst snd];
  repeat first [ rewrite norm_index_neg by lia
               | rewrite norm_index_nonneg by lia ];
  lia.

Ltac by_slice lem :=
  intros; eapply lem; [eassumption | slice_arith | intros; f_equal; slice_arith].

(** [a[:, 1:]] *)
Lemma cols_from_1 n m g a :
  cells n m g a → cells n (m - 1) (λ i j, g i (S j)) (cols (from 1) a).
Proof. by_slice cells_cols_as. Qed.

(** [a[:, :-1]] *)
Lemma cols_upto_m1 n m g a :
  cells n m g a → cells n (m - 1) g (cols (upto (-1)) a).
Proof. by_slice cells_cols_as. Qed.

(** [a[:, :1]] *)
Lemma cols_upto_1 n m g a :
  cells n m g a → cells n (1 `min` m) (λ i _, g i 0) (cols (upto 1) a).
Proof. by_slice cells_cols_as. Qed.

(** [a[:, -1:]] *)
Lemma cols_from_m1 n m g a :
  cells n m g a → cells n (1 `min` m) (λ i _, g i (m - 1)) (cols (from (-1)) a).
Proof. by_slice cells_cols_as. Qed.

(** [a[1:, :]] *)
Lemma rows_from_1 n m g a :
  cells n m g a → cells (n - 1) m (λ i j, g (S i) j) (rows (from 1) a).
Proof. by_slice cells_rows_as. Qed.

(** [a[:-1, :]] *)
Lemma rows_upto_m1 n m g a :
  cells n m g a → cells (n - 1) m g (rows (upto (-1)) a).
Proof. by_slice cells_rows_as. Qed.

(** [a[1:-1, :]] *)
Lemma rows_inner n m g a :
  cells n m g a →
  cells (n - 2) m (λ i j, g (S i) j) (rows (between 1 (-1)) a).
Proof. by_slice cells_rows_as. Qed.

(** [a[2:, :]] *)
Lemma rows_from_2 n m g a :
  cells n m g a → cells (n - 2) m (λ i j, g (S (S i)) j) (rows (from 2) a).
Proof. by_slice cells_rows_as. Qed.

(** [a[:-2, :]] *)
Lemma rows_upto_m2 n m g a :
  cells n m g a → cells (n - 2) m g (rows (upto (-2)) a).
Proof. by_slice cells_rows_as. Qed.

(** [a[1:-1, :] = b] *)
Lemma assign_inner n m g h a b :
  cells n m g a → cells (n - 2) m h b →
  ∃ c, assign_rows (between 1 (-1)) a b = Some c ∧
    cells n m (λ i j, if decide (1 ≤ i < n - 1) then h (i - 1) j else g i j) c.
Proof.
  intros Ha Hb.
  assert (slice_len (between 1 (-1)) n = n - 2) as Hlen by slice_arith.
  rewrite <- Hlen in Hb.
  destruct (assign_rows_cells _ _ _ _ _ _ _ Ha Hb) as (c & Hc & Hcells).
  exists c. split; [done|]. eapply cells_ext; [|done].
  intros i j Hi Hj.
  assert (start_of n (between 1 (-1)).1 = 1 `min` n) as -> by slice_arith.
  rewrite Hlen. repeat case_decide; try lia; try done.
  f_equal. lia.
Qed.
End ScriptSlices.
End NpFacts.

(** ** Facts about the update equations *)

Section Updates.
Context {F : Type} `{!Num F}.
Import Np NpFacts.
Implicit Type c : Coeffs F.
Implicit Type fs : Fields F.
Implicit Type g h : nat → nat → F.

(** The next and the previous place on the circle of [m] azimuths. *)
Lemma next_phi m j :
  j < m → (j + 1) mod m = if decide (j < m - 1) then S j else 0.
Proof.
  intros Hj. case_decide.
  - rewrite Nat.mod_small by lia. lia.
  - replace (j + 1) with m by lia. apply Nat.Div0.mod_same.
Qed.

Lemma prev_phi m j :
  j < m → (j + m - 1) mod m = if decide (j = 0) then m - 1 else j - 1.
Proof.
  intros Hj. case_decide.
  - subst j. rewrite Nat.mod_small by lia. lia.
  - replace (j + m - 1) with ((j - 1) + 1 * m) by lia.
    rewrite Nat.Div0.mod_add. rewrite Nat.mod_small by lia. done.
Qed.

Lemma delta_E_z_cells n m g (E : list (list F)) :
  cells n m g E →
  ∃ d, delta_E_z E = Some d ∧
    cells n m (λ i j, fsub (g i ((j + 1) mod m)) (g i j)) d.
Proof.
  intros HE. unfold delta_E_z.
  destruct (ew2_cells fsub _ _ _ _ _ _ (cols_from_1 _ _ _ _ HE)
              (cols_upto_m1 _ _ _ _ HE)) as (d & -> & Hd). simpl.
  destruct (ew2_cells fsub _ _ _ _ _ _ (cols_upto_1 _ _ _ _ HE)
              (cols_from_m1 _ _ _ _ HE)) as (w & -> & Hw). simpl.
  destruct (hstack_cells _ _ _ _ _ _ _ Hd Hw) as (dw & -> & Hdw).
  exists dw. split; [done|].
  eapply cells_cast; [done|lia|].
  intros i j Hi Hj. cbn beta. rewrite next_phi by done.
  case_decide; [done|]. by replace j with (m - 1) by lia.
Qed.

Lemma delta_H_r_cells n m g (H : list (list F)) :
  cells n m g H →
  ∃ d, delta_H_r H = Some d ∧
    cells (n - 2) m (λ i j, fsub (g (S i) j) (g (S i) ((j + m - 1) mod m))) d.
Proof.
  intros HH. unfold delta_H_r.
  pose proof (rows_inner _ _ _ _ HH) as Hin.
  destruct (ew2_cells fsub _ _ _ _ _ _ (cols_from_1 _ _ _ _ Hin)
              (cols_upto_m1 _ _ _ _ Hin)) as (d & -> & Hd). simpl.
  destruct (ew2_cells fsub _ _ _ _ _ _ (cols_upto_1 _ _ _ _ Hin)
              (cols_from_m1 _ _ _ _ Hin)) as (w & -> & Hw). simpl.
  destruct (hstack_cells _ _ _ _ _ _ _ Hw Hd) as (wd & -> & Hwd).
  exists wd. split; [done|].
  eapply cells_cast; [done|lia|].
  intros i j Hi Hj. cbn beta. rewrite prev_phi by done.
  repeat case_decide; try lia.
  - by subst j.
  - f_equal; f_equal; lia.
Qed.

Lemma update_H_r_cells n m c fs :
  coeffs_ok n m c → fields_ok n m fs →
  ∃ H', update_H_r c fs = Some {| E_z := E_z fs; H_r := H'; H_phi := H_phi fs |} ∧
    cells n m (λ i j,
      fadd (fmul (cH_r_H c).[i, j] (H_r fs).[i, j])
           (fmul (cH_r_E_z c).[i, j]
                 (fsub (E_z fs).[i, (j + 1) mod m] (E_z fs).[i, j]))) H'.
Proof.
  intros (HcH & HcE & _) (HE & HH & _). unfold update_H_r.
  destruct (delta_E_z_cells _ _ _ _ (cells_self _ _ _ HE)) as (d & -> & Hd).
  simpl.
  destruct (ew2_cells fmul _ _ _ _ _ _ (cells_self _ _ _ HcH)
              (cells_self _ _ _ HH)) as (a & -> & Ha). simpl.
  destruct (ew2_cells fmul _ _ _ _ _ _ (cells_self _ _ _ HcE) Hd)
    as (b & -> & Hb). simpl.
  destruct (ew2_cells fadd _ _ _ _ _ _ Ha Hb) as (H' & -> & HH'). simpl.
  by exists H'.
Qed.

Lemma update_H_phi_cells n m c fs :
  coeffs_ok n m c → fields_ok n m fs →
  ∃ H', update_H_phi c fs = Some {| E_z := E_z fs; H_r := H_r fs; H_phi := H' |} ∧
    cells (n - 1) m (λ i j,
      fadd (fmul (cH_phi_H c).[i, j] (H_phi fs).[i, j])
           (fmul (cH_phi_E_z c).[i, j]
                 (fsub (E_z fs).[S i, j] (E_z fs).[i, j]))) H'.
Proof.
  intros (_ & _ & HcH & HcE & _) (HE & _ & HP). unfold update_H_phi.
  destruct (ew2_cells fmul _ _ _ _ _ _ (cells_self _ _ _ HcH)
              (cells_self _ _ _ HP)) as (a & -> & Ha). simpl.
  destruct (ew2_cells fsub _ _ _ _ _ _
              (rows_from_1 _ _ _ _ (cells_self _ _ _ HE))
              (rows_upto_m1 _ _ _ _ (cells_self _ _ _ HE)))
    as (d & -> & Hd). simpl.
  destruct (ew2_cells fmul _ _ _ _ _ _ (cells_self _ _ _ HcE) Hd)
    as (b & -> & Hb). simpl.
  destruct (ew2_cells fadd _ _ _ _ _ _ Ha Hb) as (H' & -> & HH'). simpl.
  by exists H'.
Qed.

Lemma update_E_z_cells n m c fs :
  coeffs_ok n m c → fields_ok n m fs →
  ∃ E', update_E_z c fs = Some {| E_z := E'; H_r := H_r fs; H_phi := H_phi fs |} ∧
    cells n m (λ i j,
      if decide (1 ≤ i < n - 1) then E_z_rhs m c fs (i - 1) j
      else (E_z fs).[i, j]) E'.
Proof.
  intros (_ & _ & _ & _ & HcE & Hfwd & Hbwd & HcP & HcR) (HE & HH & HP).
  unfold update_E_z.
  destruct (delta_H_r_cells _ _ _ _ (cells_self _ _ _ HH)) as (dH & -> & HdH).
  simpl.
  destruct (ew2_cells fmul _ _ _ _ _ _ (cells_self _ _ _ HcE)
              (rows_inner _ _ _ _ (cells_self _ _ _ HE)))
    as (a & -> & Ha). simpl.
  assert (n - 1 - 1 = n - 2) as Hn by lia.
  pose proof (rows_from_1 _ _ _ _ (cells_self _ _ _ HP)) as HP1.
  pose proof (rows_upto_m1 _ _ _ _ (cells_self _ _ _ HP)) as HP0.
  rewrite Hn in HP1, HP0.
  destruct (ew2_cells fmul _ _ _ _ _ _ (cells_self _ _ _ Hfwd) HP1)
    as (f & -> & Hf). simpl.
  destruct (ew2_cells fmul _ _ _ _ _ _ (cells_self _ _ _ Hbwd) HP0)
    as (b & -> & Hb). simpl.
  destruct (ew2_cells fsub _ _ _ _ _ _ Hf Hb) as (d & -> & Hd). simpl.
  destruct (ew2_cells fmul _ _ _ _ _ _ (cells_self _ _ _ HcP) Hd)
    as (p & -> & Hp). simpl.
  destruct (ew2_cells fmul _ _ _ _ _ _ (cells_self _ _ _ HcR) HdH)
    as (q & -> & Hq). simpl.
  destruct (ew2_cells fadd _ _ _ _ _ _ Ha Hp) as (ap & -> & Hap). simpl.
  destruct (ew2_cells fadd _ _ _ _ _ _ Hap Hq) as (rhs & -> & Hrhs). simpl.
  destruct (assign_inner _ _ _ _ _ _ (cells_self _ _ _ HE) Hrhs)
    as (E' & -> & HE'). simpl.
  by exists E'.
Qed.

Lemma inject_cells cfg (source : nat → F) t n m fs :
  fields_ok n m fs → src_r cfg < n → src_phi cfg < m →
  ∃ E', inject cfg source t fs = Some {| E_z := E'; H_r := H_r fs; H_phi := H_phi fs |} ∧
    cells n m (λ i j,
      if decide (i = src_r cfg ∧ j = src_phi cfg)
      then fadd (E_z fs).[src_r cfg, src_phi cfg] (source t)
      else (E_z fs).[i, j]) E'.
Proof.
  intros (HE & _) Hi Hj. unfold inject.
  destruct (update_at_cells (λ x, fadd x (source t)) _ _ _ _ _ _
              (cells_self _ _ _ HE) Hi Hj) as (E' & -> & HE'). simpl.
  by exists E'.
Qed.
End Updates.

(** ** Facts about the coefficient arrays *)

Section CoefficientFacts.
Context {F : Type} `{!Num F}.
Import Np NpFacts.
Implicit Type cfg : Config.
Implicit Type c : Coeffs F.
Implicit Type fs : Fields F.
Implicit Type g h : nat → nat → F.

Lemma ones_like_cells n m (a : list (list F)) :
  has_shape n m a → cells n m (λ _ _, of_Z 1) (ones_like a).
Proof.
  intros Ha. unfold ones_like.
  by apply (cells_ew1 (λ _ : F, of_Z 1) n m (λ i j, a.[i, j])).
Qed.

Lemma ew1_cells (f : F → F) n m g (a : list (list F)) :
  cells n m g a → cells n m (λ i j, f (g i j)) (ew1 f a).
Proof. intros [Ha Hg]. by apply cells_ew1. Qed.

Lemma half_sum_cells n m g h (a b : list (list F)) :
  cells n m g a → cells n m h b →
  ∃ s, half_sum a b = Some s ∧
    cells n m (λ i j, fdiv (fadd (g i j) (h i j)) (of_Z 2)) s.
Proof.
  intros Ha Hb. unfold half_sum.
  destruct (ew2_cells fadd _ _ _ _ _ _ Ha Hb) as (s & -> & Hs). simpl.
  eexists. split; [done|].
  by apply (ew1_cells (λ x, fdiv x (of_Z 2))).
Qed.

(** The three lines that average an array over neighbouring azimuths, the
    last column against the first. *)
Lemma phi_avg_cells n m (a : list (list F)) :
  has_shape n m a →
  ∃ x w y,
    half_sum (cols (from 1) a) (cols (upto (-1)) a) = Some x ∧
    half_sum (cols (upto 1) a) (cols (from (-1)) a) = Some w ∧
    hstack x w = Some y ∧
    cells n m (phi_avg m a) y.
Proof.
  intros Ha. apply cells_self in Ha.
  destruct (half_sum_cells _ _ _ _ _ _ (cols_from_1 _ _ _ _ Ha)
              (cols_upto_m1 _ _ _ _ Ha)) as (x & Hx & Hxc).
  destruct (half_sum_cells _ _ _ _ _ _ (cols_upto_1 _ _ _ _ Ha)
              (cols_from_m1 _ _ _ _ Ha)) as (w & Hw & Hwc).
  destruct (hstack_cells _ _ _ _ _ _ _ Hxc Hwc) as (y & Hy & Hyc).
  exists x, w, y. repeat split; try done.
  - by destruct Hyc as [Hs _]; replace m with (m - 1 + 1 `min` m) at 1 by lia.
  - destruct Hyc as [_ Hyc]. intros i j Hi Hj.
    rewrite Hyc by lia. unfold phi_avg. rewrite next_phi by done.
    case_decide; [done|]. by replace j with (m - 1) by lia.
Qed.

Lemma coeffs_cells_ok cfg n m epsR muR h_r h_phi h_z c :
  coeffs_cells cfg n m epsR muR h_r h_phi h_z c → coeffs_ok n m c.
Proof.
  intros (H1 & H2 & H3 & H4 & H5 & H6 & H7 & H8 & H9).
  repeat split; eapply cells_shape; eassumption.
Qed.

Ltac next_cells H := destruct H as (? & -> & ?); simpl.

Lemma coefficients_cells cfg n m fs (epsR muR h_r h_phi h_z : list (list F)) :
  fields_ok n m fs →
  has_shape n m epsR → has_shape n m muR →
  has_shape n m h_r → has_shape n m h_phi → has_shape n m h_z →
  ∃ c, coefficients cfg fs epsR muR h_r h_phi h_z = Some c ∧
    coeffs_cells cfg n m epsR muR h_r h_phi h_z c.
Proof.
  intros (HE & HH & HP) Heps Hmu Hhr Hhp Hhz. unfold coefficients.
  destruct (phi_avg_cells _ _ _ Hhp) as (x1 & w1 & y1 & Ex & Ew & Ey & Hy1).
  rewrite Ex; simpl; rewrite Ew; simpl; rewrite Ey; simpl. clear Ex Ew Ey.
  destruct (phi_avg_cells _ _ _ Hmu) as (x2 & w2 & y2 & Ex & Ew & Ey & Hy2).
  rewrite Ex; simpl; rewrite Ew; simpl; rewrite Ey; simpl. clear Ex Ew Ey.
  apply cells_self in Heps, Hmu, Hhr, Hhp, Hhz.
  next_cells (ew2_cells fmul _ _ _ _ _ _
    (ew1_cells (λ x, fmul x (of_Z (delta_phi cfg))) _ _ _ _ Hy2) Hy1).
  next_cells (ew2_cells fmul _ _ _ _ _ _ ltac:(eassumption) Hhz).
  next_cells (half_sum_cells _ _ _ _ _ _
    (rows_from_1 _ _ _ _ Hhr) (rows_upto_m1 _ _ _ _ Hhr)).
  next_cells (half_sum_cells _ _ _ _ _ _
    (rows_from_1 _ _ _ _ Hhz) (rows_upto_m1 _ _ _ _ Hhz)).
  next_cells (half_sum_cells _ _ _ _ _ _
    (rows_from_1 _ _ _ _ Hmu) (rows_upto_m1 _ _ _ _ Hmu)).
  match goal with
  | Hm : cells _ _ _ ?mu', Hr : cells _ _ _ ?hr' |-
      context [ew2 fmul (ew1 _ ?mu') ?hr'] =>
      next_cells (ew2_cells fmul _ _ _ _ _ _
        (ew1_cells (λ x, fmul x (of_Z (delta_r cfg))) _ _ _ _ Hm) Hr)
  end.
  match goal with
  | Hd : cells _ _ _ ?d, Hz : cells _ _ _ ?hz' |-
      context [ew2 fmul ?d ?hz'] =>
      next_cells (ew2_cells fmul _ _ _ _ _ _ Hd Hz)
  end.
  next_cells (half_sum_cells _ _ _ _ _ _
    (rows_from_2 _ _ _ _ Hhp) (rows_inner _ _ _ _ Hhp)).
  next_cells (half_sum_cells _ _ _ _ _ _
    (rows_inner _ _ _ _ Hhp) (rows_upto_m2 _ _ _ _ Hhp)).
  next_cells (ew2_cells fmul _ _ _ _ _ _
    (ew1_cells (λ x, fmul x (of_Z (delta_r cfg))) _ _ _ _
       (rows_inner _ _ _ _ Heps)) (rows_inner _ _ _ _ Hhr)).
  match goal with
  | Hd : cells _ _ _ ?d |- context [ew2 fmul ?d (rows _ h_phi)] =>
      next_cells (ew2_cells fmul _ _ _ _ _ _ Hd (rows_inner _ _ _ _ Hhp))
  end.
  next_cells (ew2_cells fmul _ _ _ _ _ _
    (ew1_cells (λ x, fmul x (of_Z (delta_phi cfg))) _ _ _ _
       (rows_inner _ _ _ _ Heps)) (rows_inner _ _ _ _ Hhr)).
  match goal with
  | Hd : cells _ _ _ ?d |- context [ew2 fmul ?d (rows _ h_phi)] =>
      next_cells (ew2_cells fmul _ _ _ _ _ _ Hd (rows_inner _ _ _ _ Hhp))
  end.
  eexists. split; [done|]. unfold coeffs_cells. simpl.
  repeat match goal with |- _ ∧ _ => split end;
    try (by apply ones_like_cells);
    try (apply ones_like_cells; eapply cells_shape; by apply rows_inner);
    try (eapply cells_ext; [|apply (ew1_cells (fdiv _)); eassumption]; done);
    try done.
Qed.
End CoefficientFacts.

(** ** Facts about the grid, the medium and the loop *)

Section ScriptFacts.
Context {F : Type} `{!Num F}.
Import Np NpFacts.
Implicit Type cfg : Config.
Implicit Type c : Coeffs F.
Implicit Type fs : Fields F.

Lemma fields0_ok cfg : fields_ok (SIZE_R cfg) (SIZE_PHI cfg) (fields0 cfg).
Proof. repeat split; apply (cells_shape _ _ _ _ (cells_full _ _ _)). Qed.

Lemma epsR_cells cfg :
  cells (SIZE_R cfg) (SIZE_PHI cfg)
    (λ _ _, fmul (of_Z (EPSILON0 cfg)) (of_Z 1)) (epsR cfg).
Proof. apply (ew1_cells (fmul _)), cells_full. Qed.

Lemma muR_cells cfg :
  cells (SIZE_R cfg) (SIZE_PHI cfg)
    (λ _ _, fmul (of_Z (MU0 cfg)) (of_Z 1)) (muR cfg).
Proof. apply (ew1_cells (fmul _)), cells_full. Qed.

Lemma h_r_cells cfg :
  cells (SIZE_R cfg) (SIZE_PHI cfg) (λ _ _, of_Z 1) (h_r cfg).
Proof. apply cells_full. Qed.

Lemma h_z_cells cfg :
  cells (SIZE_R cfg) (SIZE_PHI cfg) (λ _ _, of_Z 1) (h_z cfg).
Proof. apply cells_full. Qed.

Lemma grid0_cells cfg :
  cells (SIZE_R cfg) (SIZE_PHI cfg) (λ i _, Z.of_nat i) (grid0 cfg).
Proof.
  unfold grid0. split.
  - unfold has_shape, shape. rewrite <- list_fmap_compose.
    apply list_eq. intros i. rewrite list_lookup_fmap.
    destruct (decide (i < SIZE_R cfg)).
    + rewrite lookup_seq_lt, lookup_replicate_2 by done. simpl.
      by rewrite length_replicate.
    + rewrite lookup_seq_ge by lia. symmetry.
      apply lookup_replicate_None. lia.
  - intros i j Hi Hj. unfold at2.
    rewrite (list_lookup_total_correct _ i (replicate (SIZE_PHI cfg) (Z.of_nat i))).
    + by rewrite lookup_total_replicate_2.
    + by rewrite list_lookup_fmap, lookup_seq_lt.
Qed.

(** The radius array of the script: the literal [0.000001] along the row of
    the axis, the radius itself on every other row. *)
Lemma r_cells cfg :
  1 ≤ SIZE_R cfg →
  ∃ a, r cfg = Some a ∧
    cells (SIZE_R cfg) (SIZE_PHI cfg)
      (λ i _, if decide (i = 0) then lit_1em6 else of_Z (Z.of_nat i)) a.
Proof.
  intros Hn. unfold r.
  pose proof (cells_ew1 of_Z _ _ _ _ (cells_shape _ _ _ _ (grid0_cells cfg))
                (λ i j, cells_at _ _ _ _ i j (grid0_cells cfg))) as [Hs Hg].
  pose proof (has_shape_length _ _ _ Hs) as Hl.
  rewrite (list_lookup_lookup_total_lt (ew1 of_Z (grid0 cfg)) 0) by lia.
  simpl. eexists. split; [done|].
  pose proof (has_shape_row _ _ _ 0 Hs Hn) as Hr0.
  split.
  - apply has_shape_alt. split; [by rewrite length_insert|].
    intros i row Hi. destruct (decide (i = 0)) as [->|Hne].
    + rewrite list_lookup_insert_eq in Hi by lia. injection Hi as <-.
      by rewrite length_fmap.
    + rewrite list_lookup_insert_ne in Hi by done.
      apply has_shape_alt in Hs as [_ Hrows]. eauto.
  - intros i j Hi Hj. unfold at2 in *. case_decide as Hi0.
    + subst i. rewrite list_lookup_total_insert_eq by lia.
      apply list_lookup_total_correct.
      rewrite list_lookup_fmap, list_lookup_lookup_total_lt by lia. done.
    + rewrite list_lookup_total_insert_ne by done. by apply Hg.
Qed.

Lemma script_coefficients_cells cfg :
  1 ≤ SIZE_R cfg →
  ∃ hp c, h_phi cfg = Some hp ∧ script_coefficients cfg = Some c ∧
    coeffs_cells cfg (SIZE_R cfg) (SIZE_PHI cfg)
      (epsR cfg) (muR cfg) (h_r cfg) hp (h_z cfg) c.
Proof.
  intros Hn. destruct (r_cells cfg Hn) as (hp & Hr & Hhp).
  destruct (coefficients_cells cfg _ _ _ _ _ _ _ _ (fields0_ok cfg)
    (cells_shape _ _ _ _ (epsR_cells cfg)) (cells_shape _ _ _ _ (muR_cells cfg))
    (cells_shape _ _ _ _ (h_r_cells cfg)) (cells_shape _ _ _ _ Hhp)
    (cells_shape _ _ _ _ (h_z_cells cfg))) as (c & Hc & Hcells).
  exists hp, c. unfold script_coefficients, h_phi. rewrite Hr. simpl.
  by rewrite Hc.
Qed.

(** One round of the loop keeps the shapes. *)
Lemma step_ok cfg c (source : nat → F) t n m fs :
  coeffs_ok n m c → fields_ok n m fs → src_r cfg < n → src_phi cfg < m →
  ∃ fs', step cfg c source t fs = Some fs' ∧ fields_ok n m fs'.
Proof.
  intros Hc Hf Hi Hj. unfold step.
  destruct (update_H_r_cells _ _ _ _ Hc Hf) as (H' & -> & HH'). simpl.
  assert (fields_ok n m {| E_z := E_z fs; H_r := H'; H_phi := H_phi fs |})
    as Hf1 by (destruct Hf as (? & ? & ?); repeat split; try done; apply HH').
  destruct (update_H_phi_cells _ _ _ _ Hc Hf1) as (P' & -> & HP'). simpl.
  assert (fields_ok n m {| E_z := E_z fs; H_r := H'; H_phi := P' |})
    as Hf2 by (destruct Hf1 as (? & ? & ?); repeat split; try done; apply HP').
  destruct (update_E_z_cells _ _ _ _ Hc Hf2) as (E' & -> & HE'). simpl.
  assert (fields_ok n m {| E_z := E'; H_r := H'; H_phi := P' |})
    as Hf3 by (destruct Hf2 as (? & ? & ?); repeat split; try done; apply HE').
  destruct (inject_cells cfg source t _ _ _ Hf3 Hi Hj) as (E'' & -> & HE'').
  eexists. split; [done|].
  destruct Hf3 as (? & ? & ?); repeat split; try done; apply HE''.
Qed.

(** One round of the loop, update by update. *)
Lemma step_cells cfg c (source : nat → F) t n m fs :
  coeffs_ok n m c → fields_ok n m fs → src_r cfg < n → src_phi cfg < m →
  ∃ fs1 fs2 fs3 fs4,
    update_H_r c fs = Some fs1 ∧ update_H_phi c fs1 = Some fs2 ∧
    update_E_z c fs2 = Some fs3 ∧ inject cfg source t fs3 = Some fs4 ∧
    step cfg c source t fs = Some fs4 ∧
    (fields_ok n m fs1 ∧ fields_ok n m fs2 ∧ fields_ok n m fs3 ∧
     fields_ok n m fs4) ∧
    (E_z fs1 = E_z fs ∧ H_phi fs1 = H_phi fs) ∧
    (E_z fs2 = E_z fs ∧ H_r fs2 = H_r fs1) ∧
    (H_r fs3 = H_r fs1 ∧ H_phi fs3 = H_phi fs2) ∧
    (H_r fs4 = H_r fs1 ∧ H_phi fs4 = H_phi fs2) ∧
    cells n m (λ i j,
      fadd (fmul (cH_r_H c).[i, j] (H_r fs).[i, j])
           (fmul (cH_r_E_z c).[i, j]
                 (fsub (E_z fs).[i, (j + 1) mod m] (E_z fs).[i, j])))
      (H_r fs1) ∧
    cells (n - 1) m (λ i j,
      fadd (fmul (cH_phi_H c).[i, j] (H_phi fs).[i, j])
           (fmul (cH_phi_E_z c).[i, j]
                 (fsub (E_z fs).[S i, j] (E_z fs).[i, j])))
      (H_phi fs2) ∧
    cells n m (λ i j,
      if decide (1 ≤ i < n - 1) then E_z_rhs m c fs2 (i - 1) j
      else (E_z fs).[i, j]) (E_z fs3) ∧
    cells n m (λ i j,
      if decide (i = src_r cfg ∧ j = src_phi cfg)
      then fadd (E_z fs3).[src_r cfg, src_phi cfg] (source t)
      else (E_z fs3).[i, j]) (E_z fs4).
Proof.
  intros Hc Hf Hi Hj. unfold step.
  destruct (update_H_r_cells _ _ _ _ Hc Hf) as (H' & E1 & HH').
  set (fs1 := {| E_z := E_z fs; H_r := H'; H_phi := H_phi fs |}) in *.
  assert (fields_ok n m fs1)
    as Hf1 by (destruct Hf as (? & ? & ?); repeat split; try done; apply HH').
  destruct (update_H_phi_cells _ _ _ _ Hc Hf1) as (P' & E2 & HP').
  set (fs2 := {| E_z := E_z fs1; H_r := H_r fs1; H_phi := P' |}) in *.
  assert (fields_ok n m fs2)
    as Hf2 by (destruct Hf1 as (? & ? & ?); repeat split; try done; apply HP').
  destruct (update_E_z_cells _ _ _ _ Hc Hf2) as (E' & E3 & HE').
  set (fs3 := {| E_z := E'; H_r := H_r fs2; H_phi := H_phi fs2 |}) in *.
  assert (fields_ok n m fs3)
    as Hf3 by (destruct Hf2 as (? & ? & ?); repeat split; try done; apply HE').
  destruct (inject_cells cfg source t _ _ _ Hf3 Hi Hj) as (E'' & E4 & HE'').
  set (fs4 := {| E_z := E''; H_r := H_r fs3; H_phi := H_phi fs3 |}) in *.
  assert (fields_ok n m fs4)
    as Hf4 by (destruct Hf3 as (? & ? & ?); repeat split; try done; apply HE'').
  exists fs1, fs2, fs3, fs4.
  rewrite E1. simpl. rewrite E2. simpl. rewrite E3. simpl.
  repeat split; try done; try (by apply HH'); try (by apply HP');
    try (by apply HE'); try (by apply HE'');
    try (by apply Hf1); try (by apply Hf2).
Qed.

Lemma loop_ok cfg c (source : nat → F) ts n m fs :
  coeffs_ok n m c → fields_ok n m fs → src_r cfg < n → src_phi cfg < m →
  ∃ fs', loop cfg c source ts fs = Some fs' ∧ fields_ok n m fs'.
Proof.
  intros Hc Hf Hi Hj. revert fs Hf.
  induction ts as [|t ts IH]; intros fs Hf; simpl.
  - by exists fs.
  - destruct (step_ok cfg c source t _ _ _ Hc Hf Hi Hj) as (fs1 & -> & Hf1).
    simpl. by apply IH.
Qed.
End ScriptFacts.

(** ** The update equations *)

Section UpdateTheorems.
Context {F : Type} `{!Num F}.
Import Np NpFacts.
Implicit Type cfg : Config.
Implicit Type c : Coeffs F.
Implicit Type fs : Fields F.

(** C4.  In every round of the loop, at every place [(i, j)] the new [H_r]
    is [cH_r_H * H_r + cH_r_E_z * (E_z[i, (j+1) mod m] - E_z[i, j])] of the
    fields the round started from; in the last column the neighbour is
    [E_z[i, 0]]. *)
Theorem H_r_update_periodic cfg c (source : nat → F) t n m fs :
  coeffs_ok n m c → fields_ok n m fs → src_r cfg < n → src_phi cfg < m →
  ∃ fs1 fs',
    update_H_r c fs = Some fs1 ∧ step cfg c source t fs = Some fs' ∧
    H_r fs' = H_r fs1 ∧
    (∀ i j, i < n → j < m →
      (H_r fs1).[i, j] =
        fadd (fmul (cH_r_H c).[i, j] (H_r fs).[i, j])
             (fmul (cH_r_E_z c).[i, j]
                   (fsub (E_z fs).[i, (j + 1) mod m] (E_z fs).[i, j]))) ∧
    (∀ i, i < n → 0 < m →
      (H_r fs1).[i, m - 1] =
        fadd (fmul (cH_r_H c).[i, m - 1] (H_r fs).[i, m - 1])
             (fmul (cH_r_E_z c).[i, m - 1]
                   (fsub (E_z fs).[i, 0] (E_z fs).[i, m - 1]))).
Proof.
  intros Hc Hf Hi Hj.
  destruct (step_cells cfg c source t n m fs Hc Hf Hi Hj)
    as (fs1 & fs2 & fs3 & fs4 & E1 & _ & _ & _ & Est & _ & _ & _ & _
        & [EH _] & [_ HH] & _).
  exists fs1, fs4. repeat split; try done.
  intros i Hin Hm. rewrite HH by lia. do 3 f_equal.
  replace (m - 1 + 1) with m by lia. by rewrite Nat.Div0.mod_same.
Qed.

(** C10.  The difference of [H_r] the E_z update takes is a backward one,
    its wrapped element first: [H_r[i, 0] - H_r[i, m-1]] in column 0 and
    [H_r[i, j] - H_r[i, j-1]] in the columns after it, on the interior rows;
    the difference of [E_z] the H_r update takes is a forward one,
    [E_z[i, j+1] - E_z[i, j]], its wrapped element last. *)
Theorem delta_H_r_backward n m (H E : list (list F)) :
  has_shape n m H → has_shape n m E →
  ∃ dH dE,
    delta_H_r H = Some dH ∧ delta_E_z E = Some dE ∧
    has_shape (n - 2) m dH ∧ has_shape n m dE ∧
    (∀ i, 1 ≤ i ≤ n - 2 → 0 < m →
      dH.[i - 1, 0] = fsub H.[i, 0] H.[i, m - 1]) ∧
    (∀ i j, 1 ≤ i ≤ n - 2 → 1 ≤ j < m →
      dH.[i - 1, j] = fsub H.[i, j] H.[i, j - 1]) ∧
    (∀ i j, i < n → j + 1 < m →
      dE.[i, j] = fsub E.[i, j + 1] E.[i, j]) ∧
    (∀ i, i < n → 0 < m →
      dE.[i, m - 1] = fsub E.[i, 0] E.[i, m - 1]).
Proof.
  intros HH HE.
  destruct (delta_H_r_cells _ _ _ _ (cells_self _ _ _ HH)) as (dH & EH & [SH CH]).
  destruct (delta_E_z_cells _ _ _ _ (cells_self _ _ _ HE)) as (dE & EE & [SE CE]).
  exists dH, dE. repeat split; try done.
  - intros i Hi Hm. rewrite CH by lia. rewrite prev_phi by lia.
    rewrite decide_True by done. by replace (S (i - 1)) with i by lia.
  - intros i j Hi Hj. rewrite CH by lia. rewrite prev_phi by lia.
    rewrite decide_False by lia. by replace (S (i - 1)) with i by lia.
  - intros i j Hi Hj. rewrite CE by lia. by rewrite Nat.mod_small by lia.
  - intros i Hi Hm. rewrite CE by lia.
    replace (m - 1 + 1) with m by lia. by rewrite Nat.Div0.mod_same.
Qed.

(** C5.  The E_z update leaves the rows [E_z[0, :]] and [E_z[n-1, :]] as
    they were; and in a whole round of the loop nothing but the source, at
    its own cell, changes an element of these two rows. *)
Theorem E_z_update_keeps_boundary_rows cfg c (source : nat → F) t n m fs :
  coeffs_ok n m c → fields_ok n m fs →
  (∃ fs', update_E_z c fs = Some fs' ∧
    E_z fs' !! 0 = E_z fs !! 0 ∧
    E_z fs' !! (n - 1) = E_z fs !! (n - 1)) ∧
  (src_r cfg < n → src_phi cfg < m →
    ∃ fs', step cfg c source t fs = Some fs' ∧
      ∀ i j, i = 0 ∨ i = n - 1 → j < m →
        ¬ (i = src_r cfg ∧ j = src_phi cfg) →
        (E_z fs').[i, j] = (E_z fs).[i, j]).
Proof.
  intros Hc Hf. split.
  - destruct (update_E_z_cells _ _ _ _ Hc Hf) as (E' & EE & [SE CE]).
    eexists. split; [done|]. simpl.
    destruct Hf as (HE & _).
    assert (∀ i, ¬ (1 ≤ i < n - 1) → E' !! i = E_z fs !! i) as Hrow.
    { intros i Hi.
      pose proof (has_shape_length _ _ _ SE).
      pose proof (has_shape_length _ _ _ HE).
      destruct (decide (i < n)) as [Hin|Hin].
      - rewrite !list_lookup_lookup_total_lt by lia. f_equal.
        pose proof (has_shape_row _ _ _ i SE Hin).
        pose proof (has_shape_row _ _ _ i HE Hin).
        apply list_eq. intros j. destruct (decide (j < m)) as [Hj|Hj].
        + rewrite !list_lookup_lookup_total_lt by lia. f_equal.
          specialize (CE i j Hin Hj). rewrite decide_False in CE by done.
          done.
        + by rewrite !lookup_ge_None_2 by lia.
      - by rewrite !lookup_ge_None_2 by lia. }
    split; apply Hrow; lia.
  - intros Hi Hj.
    destruct (step_cells cfg c source t n m fs Hc Hf Hi Hj)
      as (fs1 & fs2 & fs3 & fs4 & _ & _ & _ & _ & Est & _ & _ & _ & _ & _
          & _ & _ & [_ HE3] & [_ HE4]).
    exists fs4. split; [done|].
    intros i j Hrow Hjm Hsrc.
    rewrite HE4 by lia. rewrite decide_False by done.
    rewrite HE3 by lia. by rewrite decide_False by lia.
Qed.
End UpdateTheorems.

(** ** The script as a whole *)

Section ScriptTheorems.
Context {F : Type} `{!Num F}.
Import Np NpFacts.
Implicit Type cfg : Config.
Implicit Type c : Coeffs F.
Implicit Type fs : Fields F.

(** C1.  With the coefficient arrays of the script, the E_z update writes
    at every interior row [1 ≤ i ≤ n-2] and every column [j]

      [cE_z_E * E_z[i, j]
       + cE_z_H_phi * (fwd * H_phi[i, j] - bwd * H_phi[i-1, j])
       + cE_z_H_r * (H_r[i, j] - H_r[i, (j-1) mod m])]

    where [H_r] and [H_phi] are the arrays the two H updates of the same
    round have just produced, [fwd = (h_phi[i+1, j] + h_phi[i, j]) / 2] and
    [bwd = (h_phi[i, j] + h_phi[i-1, j]) / 2], and the coefficients of the
    interior row [i] are stored at row [i-1] of their arrays.  The
    difference of [H_r] wraps around in the azimuth, modulo [m], as the
    difference of [E_z] in the H_r update does. *)
Theorem E_z_update_interior cfg fs :
  let n := SIZE_R cfg in
  let m := SIZE_PHI cfg in
  1 ≤ n → fields_ok n m fs →
  ∃ hp c fs1 fs2 fs3,
    h_phi cfg = Some hp ∧ script_coefficients cfg = Some c ∧
    update_H_r c fs = Some fs1 ∧ update_H_phi c fs1 = Some fs2 ∧
    update_E_z c fs2 = Some fs3 ∧
    (∀ i j, i < n → j < m →
      (H_r fs1).[i, j] =
        fadd (fmul (cH_r_H c).[i, j] (H_r fs).[i, j])
             (fmul (cH_r_E_z c).[i, j]
                   (fsub (E_z fs).[i, (j + 1) mod m] (E_z fs).[i, j]))) ∧
    (∀ i j, 1 ≤ i ≤ n - 2 → j < m →
      (E_z fs3).[i, j] =
        fadd (fadd (fmul (cE_z_E c).[i - 1, j] (E_z fs).[i, j])
                   (fmul (cE_z_H_phi c).[i - 1, j]
                      (fsub (fmul (fdiv (fadd hp.[i + 1, j] hp.[i, j]) (of_Z 2))
                                  (H_phi fs2).[i, j])
                            (fmul (fdiv (fadd hp.[i, j] hp.[i - 1, j]) (of_Z 2))
                                  (H_phi fs2).[i - 1, j]))))
             (fmul (cE_z_H_r c).[i - 1, j]
                   (fsub (H_r fs1).[i, j] (H_r fs1).[i, (j + m - 1) mod m]))).
Proof.
  intros n m Hn Hf.
  destruct (script_coefficients_cells cfg Hn) as (hp & c & Ehp & Ec & Hcells).
  pose proof (coeffs_cells_ok _ _ _ _ _ _ _ _ _ Hcells) as Hc.
  destruct Hcells as (_ & _ & _ & _ & _ & [_ Hfwd] & [_ Hbwd] & _).
  destruct (update_H_r_cells _ _ _ _ Hc Hf) as (H' & E1 & [SH' HH']).
  set (fs1 := {| E_z := E_z fs; H_r := H'; H_phi := H_phi fs |}) in *.
  assert (fields_ok n m fs1)
    as Hf1 by (destruct Hf as (? & ? & ?); repeat split; done).
  destruct (update_H_phi_cells _ _ _ _ Hc Hf1) as (P' & E2 & [SP' HP']).
  set (fs2 := {| E_z := E_z fs1; H_r := H_r fs1; H_phi := P' |}) in *.
  assert (fields_ok n m fs2)
    as Hf2 by (destruct Hf1 as (? & ? & ?); repeat split; done).
  destruct (update_E_z_cells _ _ _ _ Hc Hf2) as (E' & E3 & [SE' HE']).
  exists hp, c, fs1, fs2. eexists. repeat split; try done.
  intros i j Hi Hj. simpl. rewrite HE' by (fold n; lia).
  rewrite decide_True by (fold n; lia). unfold E_z_rhs.
  fold n m in Hfwd, Hbwd.
  rewrite Hfwd, Hbwd by lia. unfold r_avg. simpl.
  replace (S (S (i - 1))) with (i + 1) by lia.
  replace (S (i - 1)) with i by lia. done.
Qed.

(** C7.  After any number of rounds of the loop, whatever the source
    injects, [E_z] and [H_r] have [SIZE_R] rows, [H_phi] has [SIZE_R - 1]
    rows, and every row of the three has [SIZE_PHI] elements. *)
Theorem shapes_invariant cfg (source : nat → F) k :
  src_r cfg < SIZE_R cfg → src_phi cfg < SIZE_PHI cfg →
  ∃ fs, run_with cfg source k = Some fs ∧
    has_shape (SIZE_R cfg) (SIZE_PHI cfg) (E_z fs) ∧
    has_shape (SIZE_R cfg) (SIZE_PHI cfg) (H_r fs) ∧
    has_shape (SIZE_R cfg - 1) (SIZE_PHI cfg) (H_phi fs).
Proof.
  intros Hi Hj. unfold run_with.
  destruct (script_coefficients_cells cfg ltac:(lia))
    as (hp & c & _ & -> & Hcells). simpl.
  apply coeffs_cells_ok in Hcells.
  apply (loop_ok cfg c source _ _ _ _ Hcells (fields0_ok cfg) Hi Hj).
Qed.
End ScriptTheorems.

(** ** Zero fields *)

Section ZeroArrays.
Context {F : Type} `{!Num F}.
Import Np NpFacts.

Lemma zeros_at n m i j : i < n → j < m → (zeros n m).[i, j] = of_Z 0.
Proof. intros. by apply (cells_at _ _ _ _ i j (cells_full n m (of_Z 0))). Qed.

Lemma cells_zeros n m (a : list (list F)) :
  cells n m (λ _ _, of_Z 0) a → a = zeros n m.
Proof. intros Ha. apply (cells_inj _ _ _ _ _ Ha), cells_full. Qed.
End ZeroArrays.

Section ZeroFields.
Context {F : Type} `{!Num F, !Exact F}.
Import Np NpFacts.
Implicit Type cfg : Config.
Implicit Type c : Coeffs F.
Implicit Type fs : Fields F.

(** A round of the loop that starts from zero fields leaves them zero, but
    for what the source adds at its cell. *)
Lemma step_from_zero cfg c (source : nat → F) t :
  let n := SIZE_R cfg in
  let m := SIZE_PHI cfg in
  coeffs_ok n m c → src_r cfg < n → src_phi cfg < m →
  ∃ fs3 fs',
    (fs1 ← update_H_r c (fields0 cfg); fs2 ← update_H_phi c fs1;
     update_E_z c fs2) = Some fs3 ∧
    fs3 = fields0 cfg ∧
    inject cfg source t fs3 = Some fs' ∧
    step cfg c source t (fields0 cfg) = Some fs' ∧
    H_r fs' = zeros n m ∧ H_phi fs' = zeros (n - 1) m ∧
    cells n m (λ i j,
      if decide (i = src_r cfg ∧ j = src_phi cfg) then source t else of_Z 0)
      (E_z fs').
Proof.
  intros n m Hc Hi Hj.
  destruct (step_cells cfg c source t n m _ Hc (fields0_ok cfg) Hi Hj)
    as (fs1 & fs2 & fs3 & fs4 & E1 & E2 & E3 & E4 & Est & _ & [EE1 EP1]
        & [EE2 EH2] & [EH3 EP3] & [EH4 EP4] & HH & HP & HE & HE').
  assert (H_r fs1 = zeros n m) as Hz1.
  { apply cells_zeros. eapply cells_ext; [|exact HH].
    intros i j Hin Hjm. simpl.
    pose proof (Nat.mod_upper_bound (j + 1) m ltac:(lia)).
    fold n m. rewrite !zeros_at by lia.
    by rewrite fmul_0_r, fsub_0_0, fmul_0_r, fadd_0_l. }
  assert (H_phi fs2 = zeros (n - 1) m) as Hz2.
  { apply cells_zeros. eapply cells_ext; [|exact HP].
    intros i j Hin Hjm. simpl. fold n m. rewrite !zeros_at by lia.
    by rewrite fmul_0_r, fsub_0_0, fmul_0_r, fadd_0_l. }
  assert (E_z fs3 = zeros n m) as Hz3.
  { apply cells_zeros. eapply cells_ext; [|exact HE].
    intros i j Hin Hjm. simpl. fold n m. case_decide.
    - unfold E_z_rhs. rewrite EE2, EH2, Hz1, Hz2. simpl. fold n m.
      pose proof (Nat.mod_upper_bound (j + m - 1) m ltac:(lia)).
      rewrite !zeros_at by lia.
      by rewrite !fmul_0_r, !fsub_0_0, !fmul_0_r, !fadd_0_l.
    - by rewrite zeros_at. }
  exists fs3, fs4. rewrite E1. simpl. rewrite E2. simpl.
  split_and!; try done.
  - destruct fs3 as [E3' H3' P3']. simpl in *. unfold fields0. fold n m.
    congruence.
  - congruence.
  - congruence.
  - eapply cells_ext; [|exact HE'].
    intros i j Hin Hjm. simpl. rewrite Hz3. case_decide.
    + rewrite zeros_at by done. apply fadd_0_l.
    + by rewrite zeros_at.
Qed.

Lemma loop_zero cfg c ts :
  coeffs_ok (SIZE_R cfg) (SIZE_PHI cfg) c →
  src_r cfg < SIZE_R cfg → src_phi cfg < SIZE_PHI cfg →
  loop cfg c zero_source ts (fields0 cfg) = Some (fields0 cfg).
Proof.
  intros Hc Hi Hj. induction ts as [|t ts IH]; simpl; [done|].
  destruct (step_from_zero cfg c zero_source t Hc Hi Hj)
    as (_ & fs' & _ & _ & _ & -> & EH & EP & HE). simpl.
  replace fs' with (fields0 cfg); [done|].
  destruct fs' as [E' H' P']. simpl in *. unfold fields0. f_equal; try done.
  symmetry. apply cells_zeros. eapply cells_ext; [|exact HE].
  intros i j _ _. simpl. by case_decide.
Qed.

(** C6.  With a source that injects zero and the fields all zero at the
    start, the three fields are all zero after any number of rounds of the
    loop (in exact arithmetic). *)
Theorem zero_fields_stay_zero cfg k :
  src_r cfg < SIZE_R cfg → src_phi cfg < SIZE_PHI cfg →
  ∃ fs, run_with cfg zero_source k = Some fs ∧
    E_z fs = zeros (SIZE_R cfg) (SIZE_PHI cfg) ∧
    H_r fs = zeros (SIZE_R cfg) (SIZE_PHI cfg) ∧
    H_phi fs = zeros (SIZE_R cfg - 1) (SIZE_PHI cfg).
Proof.
  intros Hi Hj. exists (fields0 cfg). split; [|done]. unfold run_with.
  destruct (script_coefficients_cells cfg ltac:(lia))
    as (hp & c & _ & -> & Hcells). simpl.
  apply coeffs_cells_ok in Hcells. by apply loop_zero.
Qed.

(** In exact arithmetic, on any grid: starting from zero fields, after the
    first round ([t = 1]) [H_r] and [H_phi] are zero, [E_z] is zero away
    from the source cell, and at the source cell it is [exp(-841/100)]. *)
Lemma first_round_exact `{!Elementary F} cfg :
  let n := SIZE_R cfg in
  let m := SIZE_PHI cfg in
  src_r cfg < n → src_phi cfg < m →
  ∃ fs, run_with cfg gaussian 1 = Some fs ∧
    H_r fs = zeros n m ∧ H_phi fs = zeros (n - 1) m ∧
    ∀ i j, i < n → j < m →
      (E_z fs).[i, j] =
        if decide (i = src_r cfg ∧ j = src_phi cfg)
        then fexp (fdiv (of_Z (-841)) (of_Z 100))
        else of_Z 0.
Proof.
  intros n m Hi Hj. unfold run_with.
  destruct (script_coefficients_cells cfg ltac:(lia))
    as (hp & c & _ & -> & Hcells). simpl.
  apply coeffs_cells_ok in Hcells.
  destruct (step_from_zero cfg c gaussian 1 Hcells Hi Hj)
    as (_ & fs' & _ & _ & _ & -> & EH & EP & [_ HE]). simpl.
  exists fs'. split_and!; try done.
Qed.
End ZeroFields.

(** ** The coefficient arrays *)

Section CoefficientTheorems.
Context {F : Type} `{!Num F}.
Import Np NpFacts.
Implicit Type cfg : Config.
Implicit Type c : Coeffs F.
Implicit Type fs : Fields F.

Lemma cells_phi_constant n m g (a : list (list F)) :
  cells n m g a →
  (∀ i j j', i < n → j < m → j' < m → g i j = g i j') →
  phi_constant n m a.
Proof.
  intros [_ Ha] Hg i j j' Hi Hj Hj'. rewrite !Ha by done. by apply Hg.
Qed.

(** Coefficient arrays made from a medium and scale factors that do not
    depend on the azimuth do not depend on it either. *)
Lemma coefficients_phi_constant cfg n m epsR muR h_r h_phi h_z c :
  coeffs_cells cfg n m epsR muR h_r h_phi h_z c →
  phi_constant n m epsR → phi_constant n m muR → phi_constant n m h_r →
  phi_constant n m h_phi → phi_constant n m h_z →
  phi_constant n m (cH_r_H c) ∧ phi_constant n m (cH_r_E_z c) ∧
  phi_constant (n - 1) m (cH_phi_H c) ∧ phi_constant (n - 1) m (cH_phi_E_z c) ∧
  phi_constant (n - 2) m (cE_z_E c) ∧
  phi_constant (n - 2) m (E_z_h_phi_fwd_avg c) ∧
  phi_constant (n - 2) m (E_z_h_phi_bwd_avg c) ∧
  phi_constant (n - 2) m (cE_z_H_phi c) ∧
  phi_constant (n - 2) m (cE_z_H_r c).
Proof.
  intros (H1 & H2 & H3 & H4 & H5 & H6 & H7 & H8 & H9) Heps Hmu Hhr Hhp Hhz.
  split_and!; (eapply cells_phi_constant; [eassumption|]);
    intros i j j' Hi Hj Hj'; try done.
  - unfold cH_r_E_z_at, phi_avg.
    pose proof (Nat.mod_upper_bound (j + 1) m ltac:(lia)).
    pose proof (Nat.mod_upper_bound (j' + 1) m ltac:(lia)).
    rewrite (Hmu i ((j + 1) mod m) 0), (Hmu i j 0),
      (Hmu i ((j' + 1) mod m) 0), (Hmu i j' 0) by lia.
    rewrite (Hhp i ((j + 1) mod m) 0), (Hhp i j 0),
      (Hhp i ((j' + 1) mod m) 0), (Hhp i j' 0) by lia.
    by rewrite (Hhz i j 0), (Hhz i j' 0) by lia.
  - unfold cH_phi_E_z_at, r_avg.
    rewrite (Hmu (S i) j 0), (Hmu i j 0), (Hmu (S i) j' 0), (Hmu i j' 0) by lia.
    rewrite (Hhr (S i) j 0), (Hhr i j 0), (Hhr (S i) j' 0), (Hhr i j' 0) by lia.
    by rewrite (Hhz (S i) j 0), (Hhz i j 0), (Hhz (S i) j' 0), (Hhz i j' 0)
      by lia.
  - unfold r_avg.
    by rewrite (Hhp (S (S i)) j 0), (Hhp (S i) j 0),
      (Hhp (S (S i)) j' 0), (Hhp (S i) j' 0) by lia.
  - unfold r_avg.
    by rewrite (Hhp (S i) j 0), (Hhp i j 0), (Hhp (S i) j' 0), (Hhp i j' 0)
      by lia.
  - unfold cE_z_H_phi_at.
    by rewrite (Heps (S i) j 0), (Heps (S i) j' 0), (Hhr (S i) j 0),
      (Hhr (S i) j' 0), (Hhp (S i) j 0), (Hhp (S i) j' 0) by lia.
  - unfold cE_z_H_r_at.
    by rewrite (Heps (S i) j 0), (Heps (S i) j' 0), (Hhr (S i) j 0),
      (Hhr (S i) j' 0), (Hhp (S i) j 0), (Hhp (S i) j' 0) by lia.
Qed.

(** C9.  With a medium that is the same everywhere ([epsR] is [e] and
    [muR] is [u] at every cell) and the scale factors of the script, every
    coefficient array has one value along each row: the value at [(i, j)]
    is the value at [(i, j')] for any two columns, the last one included. *)
Theorem uniform_medium_coefficients_constant_in_phi cfg (e u : F)
    (epsR muR : list (list F)) :
  let n := SIZE_R cfg in
  let m := SIZE_PHI cfg in
  1 ≤ n →
  has_shape n m epsR → (∀ i j, i < n → j < m → epsR.[i, j] = e) →
  has_shape n m muR → (∀ i j, i < n → j < m → muR.[i, j] = u) →
  ∃ hp c,
    h_phi cfg = Some hp ∧
    coefficients cfg (fields0 cfg) epsR muR (h_r cfg) hp (h_z cfg) = Some c ∧
    phi_constant n m (cH_r_H c) ∧ phi_constant n m (cH_r_E_z c) ∧
    phi_constant (n - 1) m (cH_phi_H c) ∧
    phi_constant (n - 1) m (cH_phi_E_z c) ∧
    phi_constant (n - 2) m (cE_z_E c) ∧
    phi_constant (n - 2) m (E_z_h_phi_fwd_avg c) ∧
    phi_constant (n - 2) m (E_z_h_phi_bwd_avg c) ∧
    phi_constant (n - 2) m (cE_z_H_phi c) ∧
    phi_constant (n - 2) m (cE_z_H_r c).
Proof.
  intros n m Hn Seps Heps Smu Hmu.
  destruct (r_cells cfg Hn) as (hp & Hr & Hhp).
  destruct (coefficients_cells cfg n m (fields0 cfg) epsR muR (h_r cfg) hp
              (h_z cfg) (fields0_ok cfg) Seps Smu
              (cells_shape _ _ _ _ (h_r_cells cfg)) (cells_shape _ _ _ _ Hhp)
              (cells_shape _ _ _ _ (h_z_cells cfg))) as (c & Ec & Hcells).
  exists hp, c. split; [done|]. split; [done|].
  apply (coefficients_phi_constant _ _ _ _ _ _ _ _ _ Hcells).
  - intros i j j' ???. by rewrite !Heps.
  - intros i j j' ???. by rewrite !Hmu.
  - by eapply cells_phi_constant; [apply h_r_cells|].
  - by eapply cells_phi_constant; [apply Hhp|].
  - by eapply cells_phi_constant; [apply h_z_cells|].
Qed.

(** C3, as the script has it.  The coefficient arrays are made without any
    check of the medium or of the scale factors: for arrays of the shape of
    the grid, whatever their entries, the construction returns the nine
    arrays, and every round of the loop runs with them. *)
Theorem coefficients_never_refused cfg n m fs0
    (epsR muR h_r h_phi h_z : list (list F)) :
  fields_ok n m fs0 →
  has_shape n m epsR → has_shape n m muR →
  has_shape n m h_r → has_shape n m h_phi → has_shape n m h_z →
  ∃ c, coefficients cfg fs0 epsR muR h_r h_phi h_z = Some c ∧
    coeffs_ok n m c ∧
    ∀ (source : nat → F) t fs,
      fields_ok n m fs → src_r cfg < n → src_phi cfg < m →
      ∃ fs', step cfg c source t fs = Some fs' ∧ fields_ok n m fs'.
Proof.
  intros Hf0 Heps Hmu Hhr Hhp Hhz.
  destruct (coefficients_cells cfg n m fs0 _ _ _ _ _ Hf0 Heps Hmu Hhr Hhp Hhz)
    as (c & Ec & Hcells).
  apply coeffs_cells_ok in Hcells.
  exists c. split_and!; try done.
  intros source t fs Hf Hi Hj. by apply step_ok.
Qed.
End CoefficientTheorems.

(** ** The radius along the axis *)

Section Radius.
Context {F : Type} `{!Num F, !Elementary F}.
Import Np NpFacts.
Implicit Type cfg : Config.

(** C2, as the script has it.  The array [r], with [0.000001] written over
    its row 0, is used for the Cartesian grid and is also the scale factor
    [h_phi]: [h_phi[0, j]] is [0.000001], [h_phi[i, j]] is [i] on the other
    rows, and the coefficient arrays are computed from this [h_phi]; so the
    coefficient of the H_r update on row 0 and the backward mean of the
    first interior row contain [0.000001]. *)
Theorem h_phi_is_the_substituted_radius cfg :
  let n := SIZE_R cfg in
  let m := SIZE_PHI cfg in
  1 ≤ n →
  ∃ a c,
    r cfg = Some a ∧ h_phi cfg = Some a ∧
    gridx cfg = ew2 fmul a (ew1 fcos (phi_rad cfg)) ∧
    gridy cfg = ew2 fmul a (ew1 fsin (phi_rad cfg)) ∧
    script_coefficients cfg = Some c ∧
    coefficients cfg (fields0 cfg) (epsR cfg) (muR cfg) (h_r cfg) a (h_z cfg)
      = Some c ∧
    (∀ j, j < m → a.[0, j] = lit_1em6) ∧
    (∀ i j, 1 ≤ i < n → j < m → a.[i, j] = of_Z (Z.of_nat i)) ∧
    (∀ j, j < m →
      (cH_r_E_z c).[0, j] =
        fdiv (of_Z (- delta_t cfg))
             (fmul (fmul (fmul (phi_avg m (muR cfg) 0 j) (of_Z (delta_phi cfg)))
                         (fdiv (fadd lit_1em6 lit_1em6) (of_Z 2)))
                   (of_Z 1))) ∧
    (∀ j, 3 ≤ n → j < m →
      (E_z_h_phi_bwd_avg c).[0, j] = fdiv (fadd (of_Z 1) lit_1em6) (of_Z 2)).
Proof.
  intros n m Hn.
  destruct (script_coefficients_cells cfg Hn) as (a & c & Ea & Ec & Hcells).
  destruct (r_cells cfg Hn) as (a' & Er & [_ Ha]).
  assert (a' = a) as -> by (unfold h_phi in Ea; congruence).
  exists a, c. unfold gridx, gridy. rewrite Er. simpl.
  split_and!; try done.
  - unfold script_coefficients in Ec. by rewrite Ea in Ec.
  - intros j Hj. by rewrite Ha.
  - intros i j Hi Hj. rewrite Ha by (fold n m; lia).
    by rewrite decide_False by lia.
  - intros j Hj. destruct Hcells as (_ & [_ Hc] & _).
    rewrite Hc by (fold n m; lia). unfold cH_r_E_z_at. fold m.
    do 2 f_equal.
    + unfold phi_avg.
      pose proof (Nat.mod_upper_bound (j + 1) m ltac:(lia)).
      by rewrite !Ha by (fold n m; lia).
    + by apply (cells_at _ _ _ _ 0 j (h_z_cells cfg)).
  - intros j Hn3 Hj. destruct Hcells as (_ & _ & _ & _ & _ & _ & [_ Hc] & _).
    rewrite Hc by (fold n m; lia). unfold r_avg.
    rewrite !Ha by (fold n m; lia). done.
Qed.
End Radius.

(** C2, as the specification has it, fails on the script: at the place
    [(0, 0)] the true radius is [grid[0][0, 0] = 0], but [h_phi] is
    [0.000001] there, and the coefficient of the H_r update made from it is
    [-500000]. *)
Lemma epsilon_radius_enters_h_phi :
  ∃ (hp : list (list R)) (c : Coeffs R),
    h_phi script = Some hp ∧ script_coefficients script = Some c ∧
    (grid0 script).[0, 0] = 0%Z ∧
    hp.[0, 0] = (1 / 1000000)%R ∧
    hp.[0, 0] ≠ IZR ((grid0 script).[0, 0]) ∧
    (cH_r_E_z c).[0, 0] = (-500000)%R.
Proof.
  assert (1 ≤ SIZE_R script) as Hn by (simpl; lia).
  destruct (script_coefficients_cells (F:=R) script Hn)
    as (hp & c & Ehp & Ec & Hcells).
  destruct (r_cells (F:=R) script Hn) as (a & Er & [_ Ha]).
  assert (a = hp) as -> by (unfold h_phi in Ehp; congruence).
  assert (hp.[0, 0] = (1 / 1000000)%R) as H00
    by (rewrite Ha by (simpl; lia); done).
  assert (hp.[0, 1] = (1 / 1000000)%R) as H01
    by (rewrite Ha by (simpl; lia); done).
  exists hp, c.
  split_and!; [exact Ehp | exact Ec | reflexivity | exact H00 | |].
  - rewrite H00. change ((grid0 script).[0, 0]) with 0%Z. simpl. lra.
  - destruct Hcells as (_ & [_ Hc] & _).
    rewrite Hc by (simpl; lia).
    unfold cH_r_E_z_at, phi_avg.
    change ((0 + 1) mod SIZE_PHI script) with 1.
    rewrite H00, H01.
    rewrite !(NpFacts.cells_at _ _ _ _ 0 _ (muR_cells (F:=R) script))
      by (simpl; lia).
    rewrite (NpFacts.cells_at _ _ _ _ 0 0 (h_z_cells (F:=R) script))
      by (simpl; lia).
    simpl. change (- (1))%Z with (-1)%Z. field.
Qed.

(** C3, as the specification has it, fails on the script: with the
    permeability zero everywhere the construction of the coefficient arrays
    raises nothing; in binary64 the coefficient of the H_r update is then
    minus infinity, the loop runs with it, and after the first round [H_r]
    is not a number. *)
Lemma zero_permeability_is_not_refused :
  (muR (F:=float) script_zero_mu).[50, 90] = 0%float ∧
  (c ← script_coefficients script_zero_mu;
   fs ← loop script_zero_mu c zero_source [1] (fields0 script_zero_mu);
   Some ((cH_r_E_z c).[50, 90], PrimFloat.is_nan (H_r fs).[50, 90]))
  = Some (neg_infinity, true).
Proof. split; vm_compute; reflexivity. Qed.

(** ** The script in binary64 *)

(** In binary64 too, with the constants of the script, a round of the loop
    that injects zero into zero fields leaves them zero. *)
Lemma binary64_zero_round t :
  (c ← script_coefficients script;
   step (F:=float) script c zero_source t (fields0 script))
  = Some (fields0 script).
Proof. vm_compute. reflexivity. Qed.

Lemma binary64_zero_fields_stay_zero k :
  run_with (F:=float) script zero_source k = Some (fields0 script).
Proof.
  unfold run_with.
  destruct (script_coefficients (F:=float) script) as [c|] eqn:Ec; simpl;
    [|by pose proof (binary64_zero_round 0) as H; rewrite Ec in H].
  induction (seq 1 k) as [|t ts IH]; simpl; [done|].
  pose proof (binary64_zero_round t) as H. rewrite Ec in H. simpl in H.
  rewrite H. simpl. exact IH.
Qed.

(** In binary64 zero added on the left changes no number but [-0]: the
    sum is [x] whenever [x] does not compare equal to zero. *)
Lemma binary64_add_zero_l (x : float) :
  PrimFloat.eqb x 0 = false → (0 + x)%float = x.
Proof.
  intros Hx. apply Prim2SF_inj. rewrite add_spec.
  rewrite eqb_spec in Hx.
  change (Prim2SF 0) with (S754_zero false) in *.
  destruct (Prim2SF x) as [s|s| |s m e]; try reflexivity.
  by destruct s.
Qed.

(** In binary64, with the constants of the script, the three updates of a
    round leave zero fields zero. *)
Lemma binary64_updates_of_zero :
  (c ← script_coefficients script;
   fs1 ← update_H_r c (fields0 script);
   fs2 ← update_H_phi c fs1;
   update_E_z c fs2) = Some (fields0 (F:=float) script).
Proof. vm_compute. reflexivity. Qed.

(** Hence a round of the script from zero fields, in binary64 and with any
    source: [H_r] and [H_phi] are zero after it, and [E_z] is zero but for
    [0 + source t] at the source cell. *)
Lemma binary64_first_round (source : nat → float) t :
  ∃ c E',
    script_coefficients script = Some c ∧
    step script c source t (fields0 script)
    = Some {| E_z := E'; H_r := zeros 100 180; H_phi := zeros 99 180 |} ∧
    Np.cells 100 180 (λ i j,
      if decide (i = 50 ∧ j = 90) then (0 + source t)%float else 0%float) E'.
Proof.
  pose proof binary64_updates_of_zero as Hup.
  destruct (script_coefficients (F:=float) script) as [c|] eqn:Ec;
    [|discriminate Hup].
  change (update_H_r c (fields0 script) ≫= (λ fs1,
            update_H_phi c fs1 ≫= (λ fs2, update_E_z c fs2))
          = Some (fields0 script)) in Hup.
  destruct (inject_cells script source t 100 180 (fields0 script)
              (fields0_ok script) ltac:(simpl; lia) ltac:(simpl; lia))
    as (E' & Ei & HE').
  exists c, E'. split; [done|]. split.
  - unfold step.
    destruct (update_H_r c (fields0 script)) as [fs1|]; [|discriminate Hup].
    cbn [mbind option_bind] in Hup |- *.
    destruct (update_H_phi c fs1) as [fs2|]; [|discriminate Hup].
    cbn [mbind option_bind] in Hup |- *.
    rewrite Hup. cbn [mbind option_bind]. exact Ei.
  - eapply NpFacts.cells_ext; [|exact HE'].
    intros i j Hi Hj. cbn beta.
    change (src_r script) with 50. change (src_phi script) with 90.
    change (E_z (fields0 (F:=float) script)) with (zeros (F:=float) 100 180).
    rewrite !(zeros_at (F:=float) 100 180) by lia.
    done.
Qed.

(** C8.  In every round, whatever the arithmetic, the source adds
    [exp(-(t-30)*(t-30)/100)] to [E_z] at the source cell, after the E_z
    update, and changes nothing else: [H_r] and [H_phi] are those of the
    three updates, and so is [E_z] at every other cell.

    For the script itself in binary64, with any function for the library's
    [exp]: starting from zero fields, after the first round ([t = 1]) [H_r]
    and [H_phi] are zero, [E_z] is zero at every cell but the source cell
    [(50, 90)], and there it is [0 + exp(-841/100)].  Where that value of
    [exp] does not compare equal to zero (it is about [0.00022]), the entry
    is [exp(-841/100)] itself and does not compare equal to zero. *)
Theorem gaussian_source_first_round :
  (∀ (F : Type) (HN : Num F) (HE : Elementary F) cfg (c : Coeffs F) t
     (fs : Fields F),
     let n := SIZE_R cfg in
     let m := SIZE_PHI cfg in
     coeffs_ok n m c → fields_ok n m fs → src_r cfg < n → src_phi cfg < m →
     ∃ fs3 fs',
       (fs1 ← update_H_r c fs; fs2 ← update_H_phi c fs1; update_E_z c fs2)
         = Some fs3 ∧
       step cfg c gaussian t fs = Some fs' ∧
       H_r fs' = H_r fs3 ∧ H_phi fs' = H_phi fs3 ∧
       ∀ i j, i < n → j < m →
         (E_z fs').[i, j] =
           if decide (i = src_r cfg ∧ j = src_phi cfg)
           then fadd (E_z fs3).[i, j]
                  (fexp (fdiv (of_Z (- (Z.of_nat t - 30) * (Z.of_nat t - 30)))
                              (of_Z 100)))
           else (E_z fs3).[i, j]) ∧
  (∀ (HE : Elementary float),
     let v : float := fexp (fdiv (of_Z (-841)) (of_Z 100)) in
     ∃ fs : Fields float,
       run_with script gaussian 1 = Some fs ∧
       H_r fs = zeros 100 180 ∧ H_phi fs = zeros 99 180 ∧
       (∀ i j, i < 100 → j < 180 →
          (E_z fs).[i, j] =
            if decide (i = 50 ∧ j = 90) then (0 + v)%float else 0%float) ∧
       (PrimFloat.eqb v 0 = false →
          (E_z fs).[50, 90] = v ∧ PrimFloat.eqb (E_z fs).[50, 90] 0 = false)).
Proof.
  split.
  - intros F HN HE cfg c t fs n m Hc Hf Hi Hj.
    destruct (step_cells cfg c gaussian t n m fs Hc Hf Hi Hj)
      as (fs1 & fs2 & fs3 & fs4 & E1 & E2 & E3 & E4 & Est & _ & _ & _
          & [EH3 EP3] & [EH4 EP4] & _ & _ & _ & [_ HE']).
    exists fs3, fs4. rewrite E1. simpl. rewrite E2. simpl.
    split_and!; try done; try congruence.
    intros i j Hin Hjm. rewrite HE' by done.
    case_decide as Hsrc; [|done]. by destruct Hsrc as [-> ->].
  - intros HE v.
    destruct (binary64_first_round gaussian 1) as (c & E' & Ec & Est & [_ HE']).
    assert (E'.[50, 90] = (0 + v)%float) as Hsrc
      by (by rewrite HE' by lia).
    eexists. split_and!.
    + unfold run_with. rewrite Ec. cbn [mbind option_bind].
      change (seq 1 1) with [1]. unfold loop. rewrite Est. reflexivity.
    + reflexivity.
    + reflexivity.
    + exact HE'.
    + intros Hv. cbn [E_z]. rewrite Hsrc, (binary64_add_zero_l v Hv).
      by split.
Qed.

(** ** The definitions at work *)

(** Integers as binary64 numbers: exact up to [2^53], the nearest number
    beyond it (ties to even); and the argument of [exp] in the first round
    of the script, [-841 / 100.0]. *)
Example integers_as_floats :
  Binary64.of_int 100 = 100%float ∧
  Binary64.of_int (-841) = (-841)%float ∧
  Binary64.of_int (2 ^ 53 + 1) = 0x1p+53%float ∧
  Binary64.of_int (2 ^ 53 + 3) = 0x1.0000000000002p+53%float ∧
  Binary64.of_int (2 ^ 63 + 5) = 0x1p+63%float ∧
  fdiv (of_Z (-841)) (of_Z 100) = (-0x1.0d1eb851eb852p+3)%float.
Proof. repeat split; vm_compute; reflexivity. Qed.

(** Python's slices of a list. *)
Example slices_of_a_list :
  Np.slice (Np.between 1 (-1)) [1; 2; 3; 4; 5] = [2; 3; 4] ∧
  Np.slice (Np.from 1) [1; 2; 3] = [2; 3] ∧
  Np.slice (Np.upto (-1)) [1; 2; 3] = [1; 2] ∧
  Np.slice (Np.upto 1) [1; 2; 3] = [1] ∧
  Np.slice (Np.from (-1)) [1; 2; 3] = [3] ∧
  Np.slice (Np.from 2) [1; 2; 3] = [3] ∧
  Np.slice (Np.upto (-2)) [1; 2; 3] = [1] ∧
  Np.slice (Np.between 1 (-1)) [1] = [] ∧
  Np.slice (Np.upto (-2)) [1] = [].
Proof. repeat split. Qed.

(** The coefficient arrays of the small grid in binary64.  Row 0 of
    [cH_r_E_z] is [-1 / (2 * 0.000001)], and the first row of
    [E_z_h_phi_bwd_avg] is [(1 + 0.000001) / 2]. *)
Example coefficients_of_the_small_grid :
  script_coefficients Demo.cfg = Some {|
    cH_r_H := Np.full 4 3 1%float;
    cH_r_E_z :=
      [[-500000; -500000; -500000]; [-0.5; -0.5; -0.5];
       [-0.25; -0.25; -0.25];
       [-0x1.5555555555555p-3; -0x1.5555555555555p-3;
        -0x1.5555555555555p-3]]%float;
    cH_phi_H := Np.full 3 3 1%float;
    cH_phi_E_z := Np.full 3 3 1%float;
    cE_z_E := Np.full 2 3 1%float;
    E_z_h_phi_fwd_avg := [[1.5; 1.5; 1.5]; [2.5; 2.5; 2.5]]%float;
    E_z_h_phi_bwd_avg :=
      [[0x1.000010c6f7a0bp-1; 0x1.000010c6f7a0bp-1; 0x1.000010c6f7a0bp-1];
       [1.5; 1.5; 1.5]]%float;
    cE_z_H_phi := [[1; 1; 1]; [0.5; 0.5; 0.5]]%float;
    cE_z_H_r := [[-0.5; -0.5; -0.5]; [-0.25; -0.25; -0.25]]%float;
  |}.
Proof. vm_compute. reflexivity. Qed.

(** Two rounds of the loop on the small grid in binary64, with a source
    that adds [1] in each round.  After the first round only [E_z[1, 1]] is
    not zero; the second spreads it to the neighbours. *)
Example two_rounds_on_the_small_grid :
  run_with Demo.cfg (λ _, 1%float) 1 = Some {|
    E_z := [[0; 0; 0]; [0; 1; 0]; [0; 0; 0]; [0; 0; 0]]%float;
    H_r := Np.full 4 3 0%float;
    H_phi := Np.full 3 3 0%float;
  |} ∧
  run_with Demo.cfg (λ _, 1%float) 2 = Some {|
    E_z := [[0; 0; 0]; [0.25; -0x1.000010c6f7a0cp-1; 0.25]; [0; 0.75; 0];
            [0; 0; 0]]%float;
    H_r := [[0; 0; 0]; [-0.5; 0.5; 0]; [0; 0; 0]; [0; 0; 0]]%float;
    H_phi := [[0; 1; 0]; [0; -1; 0]; [0; 0; 0]]%float;
  |}.
Proof. split; vm_compute; reflexivity. Qed.

(** One round on the small grid from fields that are not zero. *)
Example one_round_on_the_small_grid :
  step Demo.cfg Demo.c (λ _, 1%float) 1 Demo.fs = Some {|
    E_z := [[1; 2; 4]; [108; 194; 360]; [631; 1187; 2306.5];
            [512; 1024; 2048]]%float;
    H_r := [[2.5; 4; 8.5]; [5; 3; 25]; [-17; -47; 115];
            [-235; -489; 793]]%float;
    H_phi := [[9; 17; 33]; [63; 123; 237]; [465; 915; 1815]]%float;
  |}.
Proof. vm_compute. reflexivity. Qed.

(** ** The theorems at work *)

(** The four hypotheses of C4 on the small grid, and the new [H_r] at two
    places of row 1: [13 - 0.5 * (8 - 32)] in the last column, whose
    neighbour is column 0, and [9 - 0.5 * (16 - 8)] in the first. *)
Lemma H_r_update_periodic_witness :
  coeffs_ok 4 3 Demo.c ∧ fields_ok 4 3 Demo.fs ∧
  src_r Demo.cfg < 4 ∧ src_phi Demo.cfg < 3 ∧
  ∃ fs1, update_H_r Demo.c Demo.fs = Some fs1 ∧
    (H_r fs1).[1, 2] = 25%float ∧ (H_r fs1).[1, 0] = 5%float.
Proof.
  assert (coeffs_ok 4 3 Demo.c) as Hc by (repeat split; reflexivity).
  assert (fields_ok 4 3 Demo.fs) as Hf by (repeat split; reflexivity).
  assert (src_r Demo.cfg < 4) as Hi by (simpl; lia).
  assert (src_phi Demo.cfg < 3) as Hj by (simpl; lia).
  split_and!; try assumption.
  destruct (H_r_update_periodic Demo.cfg Demo.c zero_source 1 4 3 Demo.fs
              Hc Hf Hi Hj) as (fs1 & fs' & E1 & _ & _ & Hcell & Hwrap).
  exists fs1. split_and!; [exact E1 | |].
  - etrans; [apply (Hwrap 1); lia | vm_compute; reflexivity].
  - etrans; [apply (Hcell 1 0); lia | vm_compute; reflexivity].
Defined.

(** The two hypotheses of C10 on the small grid, and the two arrays of
    differences in full. *)
Lemma delta_H_r_backward_witness :
  Np.has_shape 4 3 (H_r Demo.fs) ∧ Np.has_shape 4 3 (E_z Demo.fs) ∧
  delta_H_r (H_r Demo.fs) = Some [[-4; 2; 2]; [-4; 2; 2]]%float ∧
  delta_E_z (E_z Demo.fs) =
    Some [[1; 2; -3]; [8; 16; -24]; [64; 128; -192]; [512; 1024; -1536]]%float.
Proof.
  assert (Np.has_shape 4 3 (H_r Demo.fs)) as HH by reflexivity.
  assert (Np.has_shape 4 3 (E_z Demo.fs)) as HE by reflexivity.
  split_and!; try assumption.
  - destruct (delta_H_r_backward 4 3 _ _ HH HE) as (dH & _ & EH & _).
    rewrite EH. vm_compute in EH. symmetry. exact EH.
  - destruct (delta_H_r_backward 4 3 _ _ HH HE) as (_ & dE & _ & EE & _).
    rewrite EE. vm_compute in EE. symmetry. exact EE.
Defined.

(** The two hypotheses of C5 on the small grid, and the two boundary rows
    after the update of [E_z]. *)
Lemma E_z_update_keeps_boundary_rows_witness :
  coeffs_ok 4 3 Demo.c ∧ fields_ok 4 3 Demo.fs ∧
  ∃ fs', update_E_z Demo.c Demo.fs = Some fs' ∧
    E_z fs' !! 0 = Some [1; 2; 4]%float ∧
    E_z fs' !! 3 = Some [512; 1024; 2048]%float.
Proof.
  assert (coeffs_ok 4 3 Demo.c) as Hc by (repeat split; reflexivity).
  assert (fields_ok 4 3 Demo.fs) as Hf by (repeat split; reflexivity).
  split_and!; try assumption.
  destruct (E_z_update_keeps_boundary_rows Demo.cfg Demo.c zero_source 1 4 3
              Demo.fs Hc Hf) as [(fs' & E & E0 & E3) _].
  exists fs'. split_and!; [exact E | exact E0 | exact E3].
Defined.

(** The two hypotheses of C1 on the small grid, with its own coefficient
    arrays, and the new [E_z] at the interior place [(2, 1)]:
    [128 + 0.5 * (2.5 * 915 - 1.5 * 123) - 0.25 * (-15 - -1)], where [915]
    and [123] are the new [H_phi] at [(2, 1)] and [(1, 1)], and [-15] and
    [-1] the new [H_r] at [(2, 1)] and [(2, 0)]. *)
Lemma E_z_update_interior_witness :
  1 ≤ SIZE_R Demo.cfg ∧ fields_ok 4 3 Demo.fs ∧
  ∃ c fs1 fs2 fs3,
    script_coefficients Demo.cfg = Some c ∧
    update_H_r c Demo.fs = Some fs1 ∧ update_H_phi c fs1 = Some fs2 ∧
    update_E_z c fs2 = Some fs3 ∧
    (H_phi fs2).[2, 1] = 915%float ∧ (H_phi fs2).[1, 1] = 123%float ∧
    (H_r fs1).[2, 1] = (-15)%float ∧ (H_r fs1).[2, 0] = (-1)%float ∧
    (E_z fs3).[2, 1] = 1183%float.
Proof.
  assert (1 ≤ SIZE_R Demo.cfg) as Hn by (simpl; lia).
  assert (fields_ok 4 3 Demo.fs) as Hf by (repeat split; reflexivity).
  split_and!; try assumption.
  destruct (E_z_update_interior Demo.cfg Demo.fs Hn Hf)
    as (hp & c & fs1 & fs2 & fs3 & Ehp & Ec & E1 & E2 & E3 & _ & Hcell).
  exists c, fs1, fs2, fs3.
  split_and!; try assumption.
  5: etrans; [apply (Hcell 2 1); simpl; lia|].
  all: vm_compute in Ehp; injection Ehp as <-.
  all: vm_compute in Ec; injection Ec as <-.
  all: vm_compute in E1; injection E1 as <-.
  all: vm_compute in E2; injection E2 as <-.
  all: vm_compute; reflexivity.
Defined.

(** The two hypotheses of C7 for the script itself, and the shapes at the
    end of its loop. *)
Lemma shapes_invariant_witness :
  src_r script < SIZE_R script ∧ src_phi script < SIZE_PHI script ∧
  ∃ fs : Fields R, run script = Some fs ∧
    Np.has_shape 100 180 (E_z fs) ∧ Np.has_shape 100 180 (H_r fs) ∧
    Np.has_shape 99 180 (H_phi fs).
Proof.
  assert (src_r script < SIZE_R script) as Hi by (simpl; lia).
  assert (src_phi script < SIZE_PHI script) as Hj by (simpl; lia).
  split_and!; try assumption.
  exact (shapes_invariant script gaussian (MAXTIME script - 1) Hi Hj).
Defined.

(** The hypotheses of C6 for the script over the real numbers, and the
    fields at the end of its loop when the source injects zero. *)
Lemma zero_fields_stay_zero_witness :
  Exact R ∧ src_r script < SIZE_R script ∧ src_phi script < SIZE_PHI script ∧
  ∃ fs : Fields R, run_with script zero_source 999 = Some fs ∧
    E_z fs = zeros 100 180 ∧ H_r fs = zeros 100 180 ∧ H_phi fs = zeros 99 180.
Proof.
  assert (src_r script < SIZE_R script) as Hi by (simpl; lia).
  assert (src_phi script < SIZE_PHI script) as Hj by (simpl; lia).
  split_and!; try assumption; [exact real_exact|].
  exact (zero_fields_stay_zero script 999 Hi Hj).
Defined.

(** C8 at work, with the stand-in for [exp].  On the small grid the
    hypotheses of its first part hold, and the round of [t = 1] puts
    [193 + exp(-8.41)] at the source cell [(1, 1)], where the E_z update
    leaves [193], and leaves [360] at [(1, 2)].  For the script the
    stand-in's value at [-8.41] does not compare equal to zero, and after the
    first round [E_z[50, 90]] is that value, its neighbours are zero. *)
Lemma gaussian_source_first_round_witness :
  coeffs_ok 4 3 Demo.c ∧ fields_ok 4 3 Demo.fs ∧
  src_r Demo.cfg < 4 ∧ src_phi Demo.cfg < 3 ∧
  PrimFloat.eqb (Demo.exp_approx (-841 / 100)) 0 = false ∧
  (∃ fs', step Demo.cfg Demo.c (@gaussian float _ Demo.elementary) 1 Demo.fs
          = Some fs' ∧
     (E_z fs').[1, 1] = (193 + Demo.exp_approx (-841 / 100))%float ∧
     (E_z fs').[1, 2] = 360%float) ∧
  ∃ fs, run_with script (@gaussian float _ Demo.elementary) 1 = Some fs ∧
    H_r fs = zeros 100 180 ∧ H_phi fs = zeros 99 180 ∧
    (E_z fs).[50, 90] = Demo.exp_approx (-841 / 100) ∧
    (E_z fs).[50, 91] = 0%float ∧ (E_z fs).[49, 90] = 0%float ∧
    (E_z fs).[0, 0] = 0%float.
Proof.
  assert (coeffs_ok 4 3 Demo.c) as Hc by (repeat split; reflexivity).
  assert (fields_ok 4 3 Demo.fs) as Hf by (repeat split; reflexivity).
  assert (src_r Demo.cfg < 4) as Hi by (simpl; lia).
  assert (src_phi Demo.cfg < 3) as Hj by (simpl; lia).
  assert (PrimFloat.eqb (Demo.exp_approx (-841 / 100)) 0 = false) as Hv
    by (vm_compute; reflexivity).
  split_and!; try assumption.
  - destruct gaussian_source_first_round as [Hround _].
    destruct (Hround float _ Demo.elementary Demo.cfg Demo.c 1 Demo.fs
                Hc Hf Hi Hj) as (fs3 & fs' & E3 & Est & _ & _ & HE).
    exists fs'. split; [exact Est|].
    vm_compute in E3. injection E3 as <-.
    split.
    + etrans; [apply (HE 1 1); simpl; lia | vm_compute; reflexivity].
    + etrans; [apply (HE 1 2); simpl; lia | vm_compute; reflexivity].
  - destruct gaussian_source_first_round as [_ Hfirst].
    destruct (Hfirst Demo.elementary) as (fs & Er & EH & EP & HE & Hnz).
    destruct (Hnz Hv) as [Hs _].
    exists fs. split_and!; [exact Er | exact EH | exact EP | exact Hs | | |].
    + exact (HE 50 91 ltac:(lia) ltac:(lia)).
    + exact (HE 49 90 ltac:(lia) ltac:(lia)).
    + exact (HE 0 0 ltac:(lia) ltac:(lia)).
Defined.

(** The hypotheses of C9 on the small grid with a medium that is [3] and
    [5] everywhere, and its conclusion there. *)
Lemma uniform_medium_coefficients_constant_in_phi_witness :
  1 ≤ SIZE_R Demo.cfg ∧
  Np.has_shape 4 3 (Np.full 4 3 3%float) ∧
  (∀ i j, i < 4 → j < 3 → (Np.full 4 3 3%float).[i, j] = 3%float) ∧
  Np.has_shape 4 3 (Np.full 4 3 5%float) ∧
  (∀ i j, i < 4 → j < 3 → (Np.full 4 3 5%float).[i, j] = 5%float) ∧
  ∃ hp c,
    h_phi Demo.cfg = Some hp ∧
    coefficients Demo.cfg (fields0 Demo.cfg) (Np.full 4 3 3%float)
      (Np.full 4 3 5%float) (h_r Demo.cfg) hp (h_z Demo.cfg) = Some c ∧
    phi_constant 4 3 (cH_r_H c) ∧ phi_constant 4 3 (cH_r_E_z c) ∧
    phi_constant 3 3 (cH_phi_H c) ∧ phi_constant 3 3 (cH_phi_E_z c) ∧
    phi_constant 2 3 (cE_z_E c) ∧
    phi_constant 2 3 (E_z_h_phi_fwd_avg c) ∧
    phi_constant 2 3 (E_z_h_phi_bwd_avg c) ∧
    phi_constant 2 3 (cE_z_H_phi c) ∧ phi_constant 2 3 (cE_z_H_r c).
Proof.
  assert (1 ≤ SIZE_R Demo.cfg) as Hn by (simpl; lia).
  pose proof (NpFacts.cells_full 4 3 3%float) as [S3 C3].
  pose proof (NpFacts.cells_full 4 3 5%float) as [S5 C5].
  split_and!; try assumption.
  exact (uniform_medium_coefficients_constant_in_phi Demo.cfg 3%float 5%float
           _ _ Hn S3 C3 S5 C5).
Defined.

(** The hypotheses of C3, as the script has it, on the small grid with a
    negative permittivity, a zero permeability and a zero [h_phi], and its
    conclusion there. *)
Lemma coefficients_never_refused_witness :
  fields_ok 4 3 (fields0 (F:=float) Demo.cfg) ∧
  Np.has_shape 4 3 (Np.full 4 3 (-1)%float) ∧
  Np.has_shape 4 3 (Np.full 4 3 0%float) ∧
  Np.has_shape 4 3 (Np.full 4 3 1%float) ∧
  ∃ c,
    coefficients Demo.cfg (fields0 Demo.cfg) (Np.full 4 3 (-1)%float)
      (Np.full 4 3 0%float) (Np.full 4 3 1%float) (Np.full 4 3 0%float)
      (Np.full 4 3 1%float) = Some c ∧
    coeffs_ok 4 3 c ∧
    ∀ (source : nat → float) t fs,
      fields_ok 4 3 fs → src_r Demo.cfg < 4 → src_phi Demo.cfg < 3 →
      ∃ fs', step Demo.cfg c source t fs = Some fs' ∧ fields_ok 4 3 fs'.
Proof.
  assert (fields_ok 4 3 (fields0 (F:=float) Demo.cfg)) as Hf
    by (repeat split; reflexivity).
  assert (Np.has_shape 4 3 (Np.full 4 3 (-1)%float)) as Hm by reflexivity.
  assert (Np.has_shape 4 3 (Np.full 4 3 0%float)) as H0 by reflexivity.
  assert (Np.has_shape 4 3 (Np.full 4 3 1%float)) as H1 by reflexivity.
  split_and!; try assumption.
  exact (coefficients_never_refused Demo.cfg 4 3 _ _ _ _ _ _ Hf Hm H0 H1 H0 H1).
Defined.

(** The hypothesis of C2, as the script has it, for the script over the
    real numbers, and [h_phi] on the axis and off it. *)
Lemma h_phi_is_the_substituted_radius_witness :
  1 ≤ SIZE_R script ∧
  ∃ a : list (list R), r script = Some a ∧ h_phi script = Some a ∧
    a.[0, 7] = (1 / 1000000)%R ∧ a.[3, 7] = 3%R.
Proof.
  assert (1 ≤ SIZE_R script) as Hn by (simpl; lia).
  split; [assumption|].
  destruct (h_phi_is_the_substituted_radius (F:=R) script Hn)
    as (a & c & Er & Eh & _ & _ & _ & _ & H0 & Hi & _).
  exists a. split_and!; try assumption.
  - exact (H0 7 ltac:(simpl; lia)).
  - exact (Hi 3 7 ltac:(simpl; lia) ltac:(simpl; lia)).
Defined.
